(** * SBS mapping engine: text normalisation, similarity scoring, best-match
    search, price-list mapping and review flagging
    ([sbs_ai_mapping_system.py]).

    Conventions of the embedding.
    - A Python [str] is the list of its Unicode code points ([text]).
    - A Python [float] is the rational number it denotes ([Q]); [==] on
      scores is [Qeq].  The result of an operation on floats is the exact
      result, rounded by [rnd].  Two roundings are given: [binary64], the
      rounding of the interpreter (to the nearest double, ties to even), and
      [exact_arithmetic], which leaves the exact result.  A statement that
      names no rounding is about [exact_arithmetic].  The float written
      [0.85] is [rnd (85 # 100)]: a cell holds a float, and a threshold or
      a weight passed to a function is read as the float nearest to it.
    - A pandas cell or a dict value is a [value]; a row ([pd.Series]) and a
      Python [dict] are finite maps from labels to values.
    - An exception is the [Raise] outcome of the [res] monad. *)

From Stdlib Require Import QArith Lqa.
From stdpp Require Import gmap strings list fin_maps sorting pretty.

Local Open Scope Z_scope.
Local Open Scope nat_scope.

(** ** Values and built-ins *)

Abbreviation text := (list N).

(** The code points of a literal. *)
Definition T (s : string) : text :=
  map Ascii.N_of_ascii (String.list_ascii_of_string s).

Inductive value :=
| VNone
| VNaN
| VStr (t : text)
| VNum (q : Q)
| VInt (z : Z)
| VBool (b : bool).

(** [pd.isna(x)] on a scalar cell. *)
Definition isna (v : value) : bool :=
  match v with VNone | VNaN => true | _ => false end.

Definition is_None (v : value) : bool :=
  match v with VNone => true | _ => false end.

(** A cell read as a number: a finite float or integer, or [nan]. *)
Inductive number :=
| Num (q : Q)
| NaN.

(** The built-ins whose tables are not part of the repository: [str.lower]
    (Unicode case mapping of a whole string), the printing of a cell that is
    not a string by [str(x)], and the order in which
    [list.sort(key=..., reverse=True)] leaves elements whose keys are numbers
    one of which is [nan] (every comparison with [nan] is false, so that the
    result is a matter of the sorting algorithm). *)
Class PyBuiltins := {
  str_lower : text → text;
  obj_repr : value → text;
  sort_with_nan : ∀ A : Type, list (number * A) → list A
}.

(** A runtime for ASCII texts: letters [A-Z] go to [a-z]; integers are
    printed in decimal, a float is not printed; a list with a [nan] key is
    left in its order. *)
Definition ascii_lower (t : text) : text :=
  map (λ c, if ((65 <=? c) && (c <=? 90))%N then (c + 32)%N else c) t.

Definition ascii_builtins : PyBuiltins :=
  {| str_lower := ascii_lower;
     obj_repr := λ v, match v with
                      | VNone => T "None" | VNaN => T "nan"
                      | VBool true => T "True" | VBool false => T "False"
                      | VInt z => T (pretty z)
                      | _ => []
                      end;
     sort_with_nan := λ A keyed, keyed.*2 |}.

(** ** Floats *)

(** The rounding of the result of an operation on floats. *)
Class Rounding := { rnd : Q → Q }.

(** Arithmetic on the rationals: nothing is rounded. *)
#[global] Instance exact_arithmetic : Rounding | 100 := {| rnd := λ q, q |}.

(** The integer nearest to [n / d], the even one of two that are equally
    near ([0 ≤ n], [0 < d]). *)
Definition nearest_even (n d : Z) : Z :=
  let q := (n / d)%Z in
  let r := (n mod d)%Z in
  match (2 * r ?= d)%Z with
  | Lt => q
  | Gt => (q + 1)%Z
  | Eq => if Z.even q then q else (q + 1)%Z
  end.

(** [m * 2 ^ e], in lowest terms. *)
Definition scaled (m e : Z) : Q :=
  if (0 <=? e)%Z then inject_Z (m * 2 ^ e)
  else Qred (m # Z.to_pos (2 ^ (- e))).

(** IEEE 754 binary64, rounding to nearest, ties to even: 53 significant
    bits, the smallest positive number is [2 ^ -1074].  [l] is the exponent
    of the leading bit of [|x|] and [e] that of the last bit kept.  A result
    beyond the largest double, which the interpreter gives as [inf], is
    written [2 ^ 1024]. *)
Definition round64 (x : Q) : Q :=
  let n := Z.abs (Qnum x) in
  let d := Z.pos (Qden x) in
  if (n =? 0)%Z then 0%Q
  else
    let l := (Z.log2 n - Z.log2 d)%Z in
    let below :=
      if (0 <=? l)%Z then (n <? d * 2 ^ l)%Z else (n * 2 ^ (- l) <? d)%Z in
    let l := if below then (l - 1)%Z else l in
    let e := Z.max (l - 52) (-1074) in
    let m := if (0 <=? e)%Z then nearest_even n (d * 2 ^ e)
             else nearest_even (n * 2 ^ (- e)) d in
    let m := if (2 ^ 1024 <=? m * 2 ^ e)%Z then (2 ^ 1024)%Z else m in
    let e := if (m =? 2 ^ 1024)%Z then 0%Z else e in
    scaled (Z.sgn (Qnum x) * m) e.

Definition binary64 : Rounding := {| rnd := round64 |}.

(** [Py_UNICODE_ISSPACE]: the predicate behind [\s], [str.strip()] and
    [str.split()]. *)
Definition is_space (c : N) : bool :=
  (((9 <=? c) && (c <=? 13)) || ((28 <=? c) && (c <=? 32))
   || (c =? 133) || (c =? 160) || (c =? 5760)
   || ((8192 <=? c) && (c <=? 8202))
   || (c =? 8232) || (c =? 8233) || (c =? 8239) || (c =? 8287)
   || (c =? 12288))%N.

Definition SPACE : N := 32%N.

Definition is_lower_ascii (c : N) : bool := ((97 <=? c) && (c <=? 122))%N.
Definition is_digit (c : N) : bool := ((48 <=? c) && (c <=? 57))%N.

(** ** TextNormalizer *)

Module TextNormalizer.
Section WithBuiltins.
Context `{PyBuiltins}.

Definition py_str (v : value) : text :=
  match v with VStr t => t | _ => obj_repr v end.

(** [re.sub(r'[^a-z0-9\s]', ' ', text)] *)
Definition sub_special (t : text) : text :=
  map (λ c, if is_lower_ascii c || is_digit c || is_space c
            then c else SPACE) t.

Definition starts_with_space (t : text) : bool :=
  match t with c :: _ => is_space c | [] => false end.

(** [re.sub(r'\s+', ' ', text)]: every maximal run of whitespace becomes one
    space; a whitespace character followed by another one is absorbed, the
    last of the run is written as the space. *)
Fixpoint sub_spaces (t : text) : text :=
  match t with
  | [] => []
  | c :: t' =>
      if is_space c
      then if starts_with_space t' then sub_spaces t' else SPACE :: sub_spaces t'
      else c :: sub_spaces t'
  end.

Fixpoint lstrip (t : text) : text :=
  match t with
  | c :: t' => if is_space c then lstrip t' else t
  | [] => []
  end.

Definition rstrip (t : text) : text := reverse (lstrip (reverse t)).

(** [text.strip()] *)
Definition strip (t : text) : text := rstrip (lstrip t).

Definition normalize (v : value) : text :=
  if isna v || is_None v then []
  else
    let text := str_lower (py_str v) in
    let text := sub_special text in
    let text := sub_spaces text in
    strip text.

(** [text.split()]: the maximal runs of characters that are not whitespace. *)
Fixpoint split_from (word : text) (t : text) : list text :=
  match t with
  | [] => match word with [] => [] | _ => [word] end
  | c :: t' =>
      if is_space c
      then match word with
           | [] => split_from [] t'
           | _ => word :: split_from [] t'
           end
      else split_from (word ++ [c]) t'
  end.

Definition split (t : text) : list text := split_from [] t.

Definition stop_words : list text :=
  [ T "the"; T "and"; T "or"; T "of"; T "in"; T "for"; T "with"; T "without";
    T "per"; T "each"; T "including"; T "excluding"; T "code"; T "service" ].

Definition extract_keywords (v : value) : list text :=
  let text := normalize v in
  let words := split text in
  filter (λ w, (w ∉ stop_words) ∧ (2 < length w)) words.

End WithBuiltins.
End TextNormalizer.

(** ** SimilarityCalculator *)

Definition Qnat (n : nat) : Q := inject_Z (Z.of_nat n).

(** [enumerate(l)] *)
Definition enumerate {A} (l : list A) : list (nat * A) :=
  zip (seq 0 (length l)) l.

Module SimilarityCalculator.
Import TextNormalizer.
Section WithBuiltins.
Context `{PyBuiltins} `{Rounding}.

Definition jaccard_similarity (text1 text2 : value) : Q :=
  let set1 : gset text := list_to_set (extract_keywords text1) in
  let set2 : gset text := list_to_set (extract_keywords text2) in
  if decide (set1 = ∅ ∨ set2 = ∅) then 0%Q
  else
    let intersection := size (set1 ∩ set2) in
    let union := size (set1 ∪ set2) in
    if decide (0 < union) then rnd (Qnat intersection / Qnat union) else 0%Q.

(** One pass of the inner loop: [current_row.append(min(...))].  The three
    indices are within the rows; [!!!] is the read at an index. *)
Definition append_cell (c1 : N) (previous_row current_row : list nat)
    (jc : nat * N) : list nat :=
  let '(j, c2) := jc in
  let insertions := previous_row !!! (j + 1) + 1 in
  let deletions := current_row !!! j + 1 in
  let substitutions := previous_row !!! j + (if decide (c1 ≠ c2) then 1 else 0) in
  current_row ++ [insertions `min` (deletions `min` substitutions)].

(** One pass of the outer loop: the row of [c1], built from [[i + 1]]. *)
Definition next_row (s2 : text) (previous_row : list nat) (ic : nat * N)
    : list nat :=
  let '(i, c1) := ic in
  foldl (append_cell c1 previous_row) [i + 1] (enumerate s2).

(** The body below the swap: [s2] is not the longer string. *)
Definition levenshtein_rows (s1 s2 : text) : nat :=
  if decide (length s2 = 0) then length s1
  else
    let previous_row :=
      foldl (next_row s2) (seq 0 (length s2 + 1)) (enumerate s1) in
    default 0 (last previous_row).

Definition levenshtein_distance (s1 s2 : text) : nat :=
  if decide (length s1 < length s2) then levenshtein_rows s2 s1
  else levenshtein_rows s1 s2.

Definition normalized_levenshtein (text1 text2 : value) : Q :=
  let text1 := normalize text1 in
  let text2 := normalize text2 in
  if decide (text1 = [] ∨ text2 = []) then 0%Q
  else
    let distance := levenshtein_distance text1 text2 in
    let max_len := length text1 `max` length text2 in
    if decide (0 < max_len) then rnd (1 - rnd (Qnat distance / Qnat max_len))
    else 0%Q.

Definition default_jaccard_weight : Q := 4 # 10.
Definition default_levenshtein_weight : Q := 6 # 10.

Definition weighted_similarity (text1 text2 : value)
    (jaccard_weight levenshtein_weight : Q) : Q :=
  let jaccard_score := jaccard_similarity text1 text2 in
  let levenshtein_score := normalized_levenshtein text1 text2 in
  rnd (rnd (rnd jaccard_weight * jaccard_score)
       + rnd (rnd levenshtein_weight * levenshtein_score)).

(** [a in b] on strings: [a] starts at some position of [b]. *)
Fixpoint contains (b a : text) : bool :=
  bool_decide (a `prefix_of` b)
  || match b with [] => false | _ :: b' => contains b' a end.

Definition code_similarity (code1 code2 : value) : Q :=
  if isna code1 || isna code2 then 0%Q
  else
    let code1 := strip (py_str code1) in
    let code2 := strip (py_str code2) in
    if decide (code1 = code2) then 1%Q
    else if contains code2 code1 || contains code1 code2 then rnd (9 # 10)
    else
      let min_len := length code1 `min` length code2 in
      let matching_chars :=
        length (filter (λ i, code1 !! i = code2 !! i) (seq 0 min_len)) in
      rnd (Qnat matching_chars / Qnat (length code1 `max` length code2)).

End WithBuiltins.
End SimilarityCalculator.

(** ** Exceptions, rows and dicts *)

Inductive exn :=
| ValueError (msg : string)
| KeyError (label : string)
| TypeError.

Inductive res (A : Type) :=
| Ok (a : A)
| Raise (e : exn).
Arguments Ok {A} a.
Arguments Raise {A} e.

Global Instance res_ret : MRet res := @Ok.
Global Instance res_bind : MBind res := λ A B f m,
  match m with Ok a => f a | Raise e => Raise e end.

(** A [for] loop that appends one result per element; the first exception
    leaves the loop. *)
Fixpoint for_each {A B} (f : A → res B) (l : list A) : res (list B) :=
  match l with
  | [] => Ok []
  | x :: l' => y ← f x; ys ← for_each f l'; mret (y :: ys)
  end.

(** A row of a frame ([pd.Series]) and a Python dict: labels to values. *)
Abbreviation Series := (gmap string value).
Abbreviation Dict := (gmap string value).

(** A frame as [iterrows()] walks it: index label and row, in order. *)
Abbreviation DataFrame := (list (Z * gmap string value)).

(** [row[label]] and [d[key]] *)
Definition getitem (d : gmap string value) (k : string) : res value :=
  match d !! k with Some v => Ok v | None => Raise (KeyError k) end.

(** [d.get(key)] *)
Definition get (d : gmap string value) (k : string) : value :=
  default VNone (d !! k).

(** A value used as a number, in a comparison with a float or in a
    subtraction: a [str] or [None] there raises [TypeError]. *)
Definition as_number (v : value) : res number :=
  match v with
  | VNum q => Ok (Num q)
  | VInt z => Ok (Num (inject_Z z))
  | VBool b => Ok (Num (if b then 1 else 0))
  | VNaN => Ok NaN
  | VStr _ | VNone => Raise TypeError
  end.

(** [for col in row.index: if col not in skip: d[rename(col)] = row[col]] *)
Definition copy_columns (rename : string → string) (skip : list (option string))
    (row : gmap string value) (d : gmap string value) : gmap string value :=
  map_fold (λ col v d, if decide (Some col ∈ skip) then d
                       else <[rename col := v]> d) d row.

Definition Qlt_bool (a b : Q) : bool := negb (Qle_bool b a).

(** [x >= t] and [x < t] for a float [t]: false when [x] is [nan]. *)
Definition ge (x : number) (t : Q) : bool :=
  match x with Num q => Qle_bool t q | NaN => false end.

Definition lt (x : number) (t : Q) : bool :=
  match x with Num q => Qlt_bool q t | NaN => false end.

(** [a < b] on strings: the order of the code points at the first position
    where the strings differ; a proper prefix comes first. *)
Fixpoint text_lt (a b : text) : bool :=
  match a, b with
  | _, [] => false
  | [], _ :: _ => true
  | x :: a', y :: b' => (x <? y)%N || ((x =? y)%N && text_lt a' b')
  end.

(** ** A stable sort in descending order of a key

    [list.sort(key=..., reverse=True)] is stable: elements with equal keys
    keep their order.  It is written here as an insertion sort. *)

Fixpoint insert_desc {A} (key : A → Q) (x : A) (l : list A) : list A :=
  match l with
  | [] => [x]
  | y :: l' => if Qlt_bool (key x) (key y) then y :: insert_desc key x l'
               else x :: l
  end.

Definition sort_desc {A} (key : A → Q) (l : list A) : list A :=
  foldr (insert_desc key) [] l.

(** The same sort on keys that are strings. *)
Fixpoint insert_desc_text {A} (key : A → text) (x : A) (l : list A) : list A :=
  match l with
  | [] => [x]
  | y :: l' => if text_lt (key x) (key y) then y :: insert_desc_text key x l'
               else x :: l
  end.

Definition sort_desc_text {A} (key : A → text) (l : list A) : list A :=
  foldr (insert_desc_text key) [] l.

(** The keys read by [read], when every key can be read. *)
Fixpoint all_keys {K A} (read : value → option K) (keyed : list (value * A))
    : option (list (K * A)) :=
  match keyed with
  | [] => Some []
  | (k, x) :: keyed' =>
      match read k, all_keys read keyed' with
      | Some k', Some l => Some ((k', x) :: l)
      | _, _ => None
      end
  end.

Definition finite_key (v : value) : option Q :=
  match as_number v with Ok (Num q) => Some q | _ => None end.

Definition number_key (v : value) : option number :=
  match as_number v with Ok n => Some n | Raise _ => None end.

Definition text_key (v : value) : option text :=
  match v with VStr s => Some s | _ => None end.

(** [l.sort(key=..., reverse=True)] on a list given with its keys.  At most
    one element: nothing is compared.  Otherwise the keys are compared with
    [<]: numbers (floats, integers, booleans) by value, strings as strings;
    [None], and a string beside a number, raise [TypeError]. *)
Definition sort_reverse `{PyBuiltins} {A} (keyed : list (value * A))
    : res (list A) :=
  if decide (length keyed ≤ 1) then Ok keyed.*2
  else
    match all_keys finite_key keyed with
    | Some qs => Ok (sort_desc fst qs).*2
    | None =>
        match all_keys number_key keyed with
        | Some ns => Ok (sort_with_nan _ ns)
        | None =>
            match all_keys text_key keyed with
            | Some ts => Ok (sort_desc_text fst ts).*2
            | None => Raise TypeError
            end
        end
    end.

(** [l[:n]] *)
Definition slice_to {A} (l : list A) (n : Z) : list A :=
  if decide (0 ≤ n)%Z then take (Z.to_nat n) l
  else take (length l - Z.to_nat (- n)) l.

(** ** MatchConfidence *)

Inductive MatchConfidence := EXACT | HIGH | MEDIUM | LOW | VERY_LOW | NO_MATCH.

Definition confidence_value (c : MatchConfidence) : text :=
  match c with
  | EXACT => T "Exact Match"
  | HIGH => T "High Confidence (>90%)"
  | MEDIUM => T "Medium Confidence (70-90%)"
  | LOW => T "Low Confidence (50-70%)"
  | VERY_LOW => T "Very Low Confidence (<50%)"
  | NO_MATCH => T "No Match Found"
  end.

(** ** SBSMappingEngine *)

Module SBSMappingEngine.
Import TextNormalizer SimilarityCalculator.

(** The attribute the mapping reads; [None] until a price list is loaded. *)
Record engine := { price_list : option DataFrame }.

(** [__init__]: nothing is loaded. *)
Definition init : engine := {| price_list := None |}.

Section WithBuiltins.
Context `{PyBuiltins} `{Rounding}.

(** The dict of one match, before the other columns are added. *)
Definition new_match (idx : Z) (similarity : Q) (target_desc : value)
    (row : gmap string value) (code_column : option string) : gmap string value :=
  let code :=
    match code_column with
    | Some c => if decide (c = "") then VNone
                else match row !! c with Some v => v | None => VNone end
    | None => VNone
    end in
  <["code" := code]>
    (<["description" := target_desc]>
      (<["similarity_score" := VNum similarity]>
        (<["index" := VInt idx]> ∅))).

(** The body of the loop over the target rows. *)
Fixpoint scan_rows (source_description : value) (target_df : DataFrame)
    (description_column : string) (code_column : option string)
    (min_threshold : Q) : res (list (gmap string value)) :=
  match target_df with
  | [] => Ok []
  | (idx, row) :: rest =>
      target_desc ← getitem row description_column;
      let similarity :=
        weighted_similarity source_description target_desc
          default_jaccard_weight default_levenshtein_weight in
      matches ← scan_rows source_description rest description_column
                  code_column min_threshold;
      if Qle_bool (rnd min_threshold) similarity
      then
        let match_ := new_match idx similarity target_desc row code_column in
        let match_ :=
          copy_columns id [Some description_column; code_column] row match_ in
        mret (match_ :: matches)
      else mret matches
  end.

(** The key [x['similarity_score']] of the sort.  It is the float stored by
    [new_match], unless the frame has a column with that label: the copy
    loop then overwrites it with the cell. *)
Definition score_key (m : gmap string value) : res value :=
  getitem m "similarity_score".

(** [matches.sort(key=lambda x: x['similarity_score'], reverse=True)]: the
    keys are computed first, then the list is sorted on them. *)
Definition sort_matches (matches : list (gmap string value))
    : res (list (gmap string value)) :=
  keyed ← for_each (λ m, k ← score_key m; mret (k, m)) matches;
  sort_reverse keyed.

Definition find_best_match (source_description : value) (target_df : DataFrame)
    (description_column : string) (code_column : option string)
    (top_n : Z) (min_threshold : Q) : res (list (gmap string value)) :=
  matches ← scan_rows source_description target_df description_column
              code_column min_threshold;
  matches ← sort_matches matches;
  mret (slice_to matches top_n).

(** The chain of [if score >= ...] tests. *)
Definition classify (score : number) : MatchConfidence :=
  if ge score (rnd (95 # 100)) then EXACT
  else if ge score (rnd (90 # 100)) then HIGH
  else if ge score (rnd (70 # 100)) then MEDIUM
  else if ge score (rnd (50 # 100)) then LOW
  else VERY_LOW.

Definition no_match_result (sbs_code sbs_desc : value) : gmap string value :=
  <["second_best_score" := VNone]>
    (<["alternative_matches" := VInt 0]>
      (<["price" := VNone]>
        (<["confidence" := VStr (confidence_value NO_MATCH)]>
          (<["similarity_score" := VNum 0]>
            (<["matched_pricelist_description" := VNone]>
              (<["matched_pricelist_code" := VNone]>
                (<["sbs_description" := sbs_desc]>
                  (<["sbs_code" := sbs_code]> ∅)))))))).

(** The dict of a row that found a match, before the original columns are
    added. *)
Definition match_result (sbs_code sbs_desc code description score : value)
    (confidence : MatchConfidence) (price : value) (alternatives : Z)
    (second : value) : gmap string value :=
  <["second_best_score" := second]>
    (<["alternative_matches" := VInt alternatives]>
      (<["price" := price]>
        (<["confidence" := VStr (confidence_value confidence)]>
          (<["similarity_score" := score]>
            (<["matched_pricelist_description" := description]>
              (<["matched_pricelist_code" := code]>
                (<["sbs_description" := sbs_desc]>
                  (<["sbs_code" := sbs_code]> ∅)))))))).

(** The body of the loop over the source rows. *)
Definition map_row (pl : DataFrame) (sbs_code_col sbs_desc_col : string)
    (min_threshold : Q) (row : gmap string value) : res (gmap string value) :=
  sbs_code ← getitem row sbs_code_col;
  sbs_desc ← getitem row sbs_desc_col;
  matches ← find_best_match sbs_desc pl "pricelist_description"
              (Some "pricelist_code") 5 min_threshold;
  match matches with
  | best_match :: _ =>
      score ← getitem best_match "similarity_score";
      number ← as_number score;
      let confidence := classify number in
      description ← getitem best_match "description";
      second ← match matches !! 1 with
               | Some m => getitem m "similarity_score"
               | None => Ok VNone
               end;
      let result :=
        match_result sbs_code sbs_desc (get best_match "code") description
          score confidence (get best_match "price")
          (Z.of_nat (length matches) - 1) second in
      mret (copy_columns (String.append "original_")
              [Some sbs_code_col; Some sbs_desc_col] row result)
  | [] => mret (no_match_result sbs_code sbs_desc)
  end.

(** The records the loop collects, in order; [pd.DataFrame(results)] is
    their table.  The progress message printed every hundred rows is not
    part of the result. *)
Definition map_to_price_list (self : engine) (sbs_df : DataFrame)
    (sbs_code_col sbs_desc_col : string) (min_threshold : Q)
    : res (list (gmap string value)) :=
  match price_list self with
  | None =>
      Raise (ValueError "Price list not loaded. Call load_price_list() first.")
  | Some pl =>
      for_each (λ '(idx, row),
                map_row pl sbs_code_col sbs_desc_col min_threshold row) sbs_df
  end.

End WithBuiltins.
End SBSMappingEngine.

(** ** MappingValidator *)

Module MappingValidator.
Section WithRounding.
Context `{Rounding}.

Definition default_score_difference_threshold : Q := 5 # 100.

(** An integer or a boolean, which Python subtracts as integers. *)
Definition as_int (v : value) : option Z :=
  match v with
  | VInt z => Some z
  | VBool b => Some (if b then 1 else 0)%Z
  | _ => None
  end.

(** A number as an operand of float arithmetic: it is converted to a
    float, which changes an integer beyond 53 bits and leaves a float as it
    is. *)
Definition to_float (v : value) : res number :=
  match v with
  | VNum q => Ok (Num (rnd q))
  | VInt z => Ok (Num (rnd (inject_Z z)))
  | VBool b => Ok (Num (if b then 1 else 0))
  | VNaN => Ok NaN
  | VStr _ | VNone => Raise TypeError
  end.

(** [a - b]: the difference of two integers is an integer; otherwise both
    are floats and the difference is rounded; with [nan] it is [nan]. *)
Definition sub (a b : value) : res number :=
  match as_int a, as_int b with
  | Some i, Some j => Ok (Num (inject_Z (i - j)))
  | _, _ =>
      x ← to_float a;
      y ← to_float b;
      match x, y with
      | Num p, Num q => Ok (Num (rnd (p - q)))
      | _, _ => Ok NaN
      end
  end.

Definition is_ambiguous (score_difference_threshold : Q)
    (row : gmap string value) : res bool :=
  second ← getitem row "second_best_score";
  if isna second || is_None second then Ok false
  else
    best ← getitem row "similarity_score";
    score_diff ← sub best second;
    mret (lt score_diff (rnd score_difference_threshold)).

(** [cell == text] on one cell of the [confidence] column. *)
Definition cell_is (v : value) (t : text) : bool :=
  match v with VStr s => bool_decide (s = t) | _ => false end.

(** One row with its two new cells: [is_ambiguous], and [requires_review]
    from the three columns joined by [|]. *)
Definition add_flags (row : gmap string value) (ambiguous : bool)
    : res (gmap string value) :=
  confidence ← getitem row "confidence";
  let requires_review :=
    ambiguous || cell_is confidence (confidence_value LOW)
    || cell_is confidence (confidence_value VERY_LOW) in
  mret (<["requires_review" := VBool requires_review]>
          (<["is_ambiguous" := VBool ambiguous]> row)).

(** What the function does to one row. *)
Definition flag_row (score_difference_threshold : Q)
    (row : gmap string value) : res (gmap string value) :=
  ambiguous ← is_ambiguous score_difference_threshold row;
  add_flags row ambiguous.

(** The frame is given as the list of its rows, and the result is a copy.
    The column [is_ambiguous] is computed first, for every row, then the
    column [requires_review].  (On a frame without rows [DataFrame.apply]
    does not call the row function; the statements below are about frames
    that have rows.) *)
Definition flag_ambiguous_matches (mapping_df : list (gmap string value))
    (score_difference_threshold : Q) : res (list (gmap string value)) :=
  ambiguous ← for_each (is_ambiguous score_difference_threshold) mapping_df;
  for_each (λ '(row, a), add_flags row a) (zip mapping_df ambiguous).

End WithRounding.
End MappingValidator.


(** * Notions used to state the properties *)

(** ** Normalised text *)

(** What [re.sub(r'[^a-z0-9\s]', ' ', _)] leaves. *)
Definition kept (c : N) : Prop :=
  is_lower_ascii c = true ∨ is_digit c = true ∨ is_space c = true.

(** What a normalised text is made of. *)
Definition clean (c : N) : Prop :=
  is_lower_ascii c = true ∨ is_digit c = true ∨ c = SPACE.

Fixpoint adjacent_ws (t : text) : bool :=
  match t with
  | c :: t' => (is_space c && TextNormalizer.starts_with_space t') || adjacent_ws t'
  | [] => false
  end.

(** ** Edit distance *)

Definition differ (x y : N) : nat := if decide (x ≠ y) then 1 else 0.

(** The edit distance by its recurrence on the last characters; both
    arguments are given last character first. *)
Fixpoint edit (a b : text) : nat :=
  match a with
  | [] => length b
  | x :: a' =>
      (fix edit_a (b : text) : nat :=
         match b with
         | [] => length a
         | y :: b' =>
             (edit a' b + 1) `min` ((edit_a b' + 1) `min` (edit a' b' + differ x y))
         end) b
  end.

(** The row of the table that belongs to the prefix [a] of the first
    string: its [j]-th cell compares [a] with the first [j] characters of
    [s2]. *)
Definition row_of (s2 : text) (a : text) : list nat :=
  (λ j, edit a (reverse (take j s2))) <$> seq 0 (length s2 + 1).

(** ** Codes *)

(** [a] occurs in [b] as a contiguous piece. *)
Definition substring (a b : text) : Prop := ∃ pre post, b = pre ++ a ++ post.

(** The number of positions, up to the length of the shorter code, at which
    the two codes carry the same character. *)
Definition agreeing (a b : text) : nat :=
  length (filter (λ p, p.1 = p.2) (zip a b)).

(** ** Search and mapping *)

Global Instance Qle_decision (a b : Q) : Decision (a <= b)%Q :=
  match Qlt_le_dec b a with
  | left Hlt => right (Qlt_not_le b a Hlt)
  | right Hle => left Hle
  end.

Global Instance Qeq_decision (a b : Q) : Decision (a == b)%Q := Qeq_dec a b.

Section SearchNotions.
Context `{PyBuiltins} `{Rounding}.

(** The description cell of a target row. *)
Definition description_cell (dcol : string) (r : Z * gmap string value) : value :=
  default VNone (r.2 !! dcol).

(** The score of a target row against the query, with the default weights. *)
Definition similarity (src : value) (dcol : string)
    (r : Z * gmap string value) : Q :=
  SimilarityCalculator.weighted_similarity src (description_cell dcol r)
    SimilarityCalculator.default_jaccard_weight
    SimilarityCalculator.default_levenshtein_weight.

(** A row survives when its score is not below the threshold. *)
Definition survives (src : value) (dcol : string) (thr : Q)
    (r : Z * gmap string value) : Prop :=
  (rnd thr <= similarity src dcol r)%Q.

Global Instance survives_dec src dcol thr r : Decision (survives src dcol thr r) :=
  Qle_decision _ _.

(** The dict the search builds for a target row. *)
Definition candidate (src : value) (dcol : string) (ccol : option string)
    (r : Z * gmap string value) : gmap string value :=
  copy_columns id [Some dcol; ccol] r.2
    (SBSMappingEngine.new_match r.1 (similarity src dcol r)
       (description_cell dcol r) r.2 ccol).

(** A frame that can be searched on column [dcol]: every row has that
    column, and no column carries the label under which a match stores its
    score. *)
Definition searchable (dcol : string) (df : DataFrame) : Prop :=
  Forall (λ r, is_Some (r.2 !! dcol) ∧ r.2 !! "similarity_score" = None) df.

(** The tier of a score: the first threshold, from the top, that the score
    reaches. *)
Definition in_tier (score : Q) (c : MatchConfidence) : Prop :=
  match c with
  | EXACT => (rnd (95 # 100) <= score)%Q
  | HIGH => (rnd (90 # 100) <= score)%Q ∧ (score < rnd (95 # 100))%Q
  | MEDIUM => (rnd (70 # 100) <= score)%Q ∧ (score < rnd (90 # 100))%Q
  | LOW => (rnd (50 # 100) <= score)%Q ∧ (score < rnd (70 # 100))%Q
  | VERY_LOW => (score < rnd (50 # 100))%Q
  | NO_MATCH => False
  end.

End SearchNotions.

(** Descending order of a key. *)
Definition desc {A} (key : A → Q) (a b : A) : Prop := (key b <= key a)%Q.

(** What the mapping records for the source row [r], in terms of the rows
    of the price list [pl] that survive the search for the description of
    [r].  Without a survivor: the [NO_MATCH] label, score 0, no matched
    field, no alternative, no second score.  With a survivor: the score is
    the highest score among the survivors, the label is the tier of that
    score, and the second score is a number exactly when two rows or more
    survive. *)
Definition mapped `{PyBuiltins} `{Rounding} (pl : DataFrame) (desc_col : string) (thr : Q)
    (r : Z * gmap string value) (result : gmap string value) : Prop :=
  let score := similarity (description_cell desc_col r) "pricelist_description" in
  let surv :=
    filter (survives (description_cell desc_col r) "pricelist_description" thr)
      pl in
  (surv = [] →
     result !! "confidence" = Some (VStr (confidence_value NO_MATCH))
     ∧ result !! "similarity_score" = Some (VNum 0)
     ∧ result !! "matched_pricelist_code" = Some VNone
     ∧ result !! "matched_pricelist_description" = Some VNone
     ∧ result !! "price" = Some VNone
     ∧ result !! "alternative_matches" = Some (VInt 0)
     ∧ result !! "second_best_score" = Some VNone)
  ∧ (surv ≠ [] →
     ∃ best c,
       best ∈ surv
       ∧ (∀ r', r' ∈ surv → (score r' <= score best)%Q)
       ∧ result !! "similarity_score" = Some (VNum (score best))
       ∧ in_tier (score best) c
       ∧ result !! "confidence" = Some (VStr (confidence_value c))
       ∧ (2 ≤ length surv →
          ∃ second, second ∈ surv
            ∧ result !! "second_best_score" = Some (VNum (score second)))
       ∧ (length surv < 2 → result !! "second_best_score" = Some VNone)).

(** A source frame whose rows have the code and the description column. *)
Definition mappable (code_col desc_col : string) (sbs_df : DataFrame) : Prop :=
  Forall (λ r, is_Some (r.2 !! code_col) ∧ is_Some (r.2 !! desc_col)) sbs_df.

(** ** Review flags *)

(** A mapping record with best score [best], second score [second] (absent
    when the cell is [None] or [NaN]) and the label of tier [c]. *)
Definition scored (row : gmap string value) (best : Q) (second : option Q)
    (c : MatchConfidence) : Prop :=
  row !! "similarity_score" = Some (VNum best)
  ∧ match second with
    | Some q => row !! "second_best_score" = Some (VNum q)
    | None => row !! "second_best_score" = Some VNone
              ∨ row !! "second_best_score" = Some VNaN
    end
  ∧ row !! "confidence" = Some (VStr (confidence_value c)).

(** [row'] is [row] with the two flags: ambiguous when there is a second
    score and the difference of the two scores, as the float subtraction
    gives it, is less than [g]; to be reviewed when ambiguous or of tier
    [LOW] or [VERY_LOW]; nothing else changes. *)
Definition flagged `{Rounding} (g : Q) (row row' : gmap string value) : Prop :=
  ∀ best second c, scored row best second c →
    ∃ ambiguous review,
      row' !! "is_ambiguous" = Some (VBool ambiguous)
      ∧ row' !! "requires_review" = Some (VBool review)
      ∧ (ambiguous = true ↔
           ∃ q, second = Some q ∧ (rnd (rnd best - rnd q) < rnd g)%Q)
      ∧ (review = true ↔ ambiguous = true ∨ c = LOW ∨ c = VERY_LOW)
      ∧ (∀ k, k ≠ "is_ambiguous" → k ≠ "requires_review" →
              row' !! k = row !! k).

(** ** Sample frames *)

Definition sample_price_list : DataFrame :=
  [ (0%Z, {[ "pricelist_code" := VStr (T "T1");
             "pricelist_description" := VStr (T "chest x-ray exam");
             "price" := VNum 120 ]});
    (1%Z, {[ "pricelist_code" := VStr (T "T2");
             "pricelist_description" := VStr (T "knee mri");
             "price" := VNum 900 ]}) ].

Definition sample_source : DataFrame :=
  [ (0%Z, {[ "V3_Code" := VStr (T "S1");
             "V3_Description" := VStr (T "chest x ray");
             "Region" := VStr (T "north") ]}) ].

(** A price list with a column labelled like the score of a match, holding
    the floats 0.5 and 0.25. *)
Definition clash_price_list : DataFrame :=
  [ (0%Z, {[ "pricelist_code" := VStr (T "T1");
             "pricelist_description" := VStr (T "chest x-ray exam");
             "similarity_score" := VNum (1 # 2) ]});
    (1%Z, {[ "pricelist_code" := VStr (T "T3");
             "pricelist_description" := VStr (T "chest x ray");
             "similarity_score" := VNum (1 # 4) ]}) ].

(** A mapping record with the floats 0.80 and 0.78. *)
Definition sample_result : gmap string value :=
  {[ "sbs_code" := VStr (T "S1");
     "similarity_score" := VNum (round64 (80 # 100));
     "second_best_score" := VNum (round64 (78 # 100));
     "confidence" := VStr (confidence_value MEDIUM) ]}.

(** The cells under the label [k] in the records of a result. *)
Definition column (k : string) (result : res (list (gmap string value)))
    : res (list (option value)) :=
  match result with
  | Ok records => Ok ((λ m : gmap string value, m !! k) <$> records)
  | Raise e => Raise e
  end.

(** ** Further notions *)

(** [str.lower] leaves a text of lowercase ASCII letters, digits and spaces
    as it is. *)
Definition lower_keeps_clean `{PyBuiltins} : Prop :=
  ∀ t : text, Forall clean t → str_lower t = t.

(** A character of a keyword: a lowercase ASCII letter or a digit. *)
Definition word_char (c : N) : Prop :=
  is_lower_ascii c = true ∨ is_digit c = true.

(** * Properties *)

(** ** TextNormalizer: the shape of a normalised text *)

Module NormalizerFacts.
Import TextNormalizer.

Lemma is_space_SPACE : is_space SPACE = true.
Proof. reflexivity. Qed.

Lemma clean_kept c : clean c → kept c.
Proof.
  intros [Hl | [Hd | ->]]; [by left | by right; left | right; right].
  apply is_space_SPACE.
Qed.

Lemma sub_special_kept t : Forall kept (sub_special t).
Proof.
  unfold sub_special. apply Forall_map, Forall_forall. intros c _. simpl.
  destruct (is_lower_ascii c) eqn:Hl; [by left |].
  destruct (is_digit c) eqn:Hd; [by right; left |].
  destruct (is_space c) eqn:Hs; simpl; right; right; [done |].
  apply is_space_SPACE.
Qed.

Lemma sub_spaces_clean t : Forall kept t → Forall clean (sub_spaces t).
Proof.
  induction 1 as [| c t Hc _ IH]; simpl; [constructor |].
  destruct (is_space c) eqn:Hs.
  - destruct (starts_with_space t); [done |].
    constructor; [by right; right | done].
  - constructor; [| done].
    destruct Hc as [Hl | [Hd | Hs']]; [by left | by right; left | congruence].
Qed.

Lemma starts_sub_spaces t :
  starts_with_space (sub_spaces t) = starts_with_space t.
Proof.
  induction t as [| c t IH]; simpl; [done |].
  destruct (is_space c) eqn:Hs; simpl; [| done].
  destruct (starts_with_space t) eqn:Ht; simpl; [| done].
  by rewrite IH.
Qed.

Lemma sub_spaces_separated t : adjacent_ws (sub_spaces t) = false.
Proof.
  induction t as [| c t IH]; simpl; [done |].
  destruct (is_space c) eqn:Hs.
  - destruct (starts_with_space t) eqn:Ht; simpl; [done |].
    by rewrite starts_sub_spaces, Ht, IH.
  - simpl. by rewrite Hs, IH.
Qed.

Lemma adjacent_ws_false t l1 c1 c2 l2 :
  adjacent_ws t = false → t = l1 ++ c1 :: c2 :: l2 →
  is_space c1 = true → is_space c2 = true → False.
Proof.
  revert t. induction l1 as [| a l1 IH]; intros t Ht -> H1 H2; simpl in Ht.
  - rewrite H1, H2 in Ht. discriminate.
  - apply orb_false_iff in Ht as [_ Ht]. by eapply IH.
Qed.

Lemma lstrip_split t :
  ∃ ws, t = ws ++ lstrip t ∧ starts_with_space (lstrip t) = false.
Proof.
  induction t as [| c t (ws & IH & Hs)]; [by exists [] |]. simpl.
  destruct (is_space c) eqn:Hc.
  - exists (c :: ws). split; [by rewrite <- app_comm_cons, <- IH | done].
  - exists []. by simpl.
Qed.

Lemma rstrip_split t :
  ∃ ws, t = rstrip t ++ ws ∧
        ∀ c, last (rstrip t) = Some c → is_space c = false.
Proof.
  unfold rstrip. destruct (lstrip_split (reverse t)) as (ws & Ht & Hs).
  exists (reverse ws). split.
  - by rewrite <- reverse_app, <- Ht, reverse_involutive.
  - intros c. rewrite last_reverse.
    destruct (lstrip (reverse t)) as [| a u]; simpl in *; congruence.
Qed.

Lemma strip_split t :
  ∃ ws1 ws2, t = ws1 ++ strip t ++ ws2
    ∧ (∀ c, head (strip t) = Some c → is_space c = false)
    ∧ (∀ c, last (strip t) = Some c → is_space c = false).
Proof.
  unfold strip.
  destruct (lstrip_split t) as (ws1 & Ht & Hhead).
  destruct (rstrip_split (lstrip t)) as (ws2 & Hu & Hlast).
  exists ws1, ws2. split; [by rewrite <- Hu | split; [| done]].
  intros c Hc. rewrite Hu in Hhead.
  destruct (rstrip (lstrip t)) as [| a r]; simpl in *; congruence.
Qed.

Lemma clean_space c : clean c → is_space c = true → c = SPACE.
Proof.
  intros [Hl | [Hd | ->]] Hs; [| | done]; exfalso;
    unfold is_lower_ascii, is_digit, is_space in *;
    repeat match goal with
      | H : _ && _ = true |- _ => apply andb_true_iff in H as [? ?]
      | H : _ || _ = true |- _ => apply orb_true_iff in H as [H | H]
      | H : (_ <=? _)%N = true |- _ => apply N.leb_le in H
      | H : (_ =? _)%N = true |- _ => apply N.eqb_eq in H
      end; lia.
Qed.

End NormalizerFacts.

(** C8. For every input (a missing cell counts as the empty string) the
    normalised text consists of lowercase ASCII letters, digits and spaces
    only, never has two spaces in a row, and neither starts nor ends with a
    space.  [normalize] is a total function. *)
Theorem normalize_shape `{PyBuiltins} (v : value) :
  let r := TextNormalizer.normalize v in
  Forall (λ c, is_lower_ascii c = true ∨ is_digit c = true ∨ c = SPACE) r
  ∧ (∀ l1 l2, r ≠ l1 ++ SPACE :: SPACE :: l2)
  ∧ head r ≠ Some SPACE
  ∧ last r ≠ Some SPACE.
Proof.
  intros r. subst r. unfold TextNormalizer.normalize.
  destruct (isna v || is_None v).
  { split; [constructor |]. split; [by intros [| ? ?] ? | by split]. }
  set (u := TextNormalizer.sub_spaces _).
  assert (Hclean : Forall clean u)
    by apply NormalizerFacts.sub_spaces_clean, NormalizerFacts.sub_special_kept.
  assert (Hsep : adjacent_ws u = false)
    by apply NormalizerFacts.sub_spaces_separated.
  destruct (NormalizerFacts.strip_split u) as (ws1 & ws2 & Hu & Hhead & Hlast).
  split; [| split; [| split]].
  - rewrite Hu in Hclean.
    apply Forall_app in Hclean as [_ Hclean].
    by apply Forall_app in Hclean as [Hclean _].
  - intros l1 l2 E.
    apply (NormalizerFacts.adjacent_ws_false u (ws1 ++ l1) SPACE SPACE (l2 ++ ws2));
      [done | | done | done].
    rewrite Hu at 1. rewrite E. by rewrite <- !app_assoc.
  - intros E. by specialize (Hhead _ E).
  - intros E. by specialize (Hlast _ E).
Qed.

(** ** SimilarityCalculator: the row computation is the edit distance *)

Module LevenshteinFacts.
Import SimilarityCalculator.

Lemma edit_nil_r a : edit a [] = length a.
Proof. by destruct a. Qed.

Lemma edit_cons x a y b :
  edit (x :: a) (y :: b) =
  (edit a (y :: b) + 1) `min` ((edit (x :: a) b + 1) `min` (edit a b + differ x y)).
Proof. reflexivity. Qed.

Lemma differ_sym x y : differ x y = differ y x.
Proof. unfold differ. repeat case_decide; congruence. Qed.

Lemma edit_sym a b : edit a b = edit b a.
Proof.
  revert b. induction a as [| x a IHa]; intros b.
  - by rewrite edit_nil_r.
  - induction b as [| y b IHb]; [done |].
    rewrite !edit_cons, IHb, (IHa (y :: b)), (IHa b), (differ_sym x y). lia.
Qed.

Lemma edit_bound a b : edit a b ≤ length a `max` length b.
Proof.
  revert b. induction a as [| x a IHa]; intros b; [simpl; lia |].
  destruct b as [| y b]; [simpl; lia |].
  rewrite edit_cons. specialize (IHa b). unfold differ. simpl length.
  case_decide; lia.
Qed.

Lemma edit_refl a : edit a a = 0.
Proof.
  induction a as [| x a IH]; [done |].
  rewrite edit_cons, IH. unfold differ. case_decide; [done | lia].
Qed.

Section Rows.
Variable s2 : text.

Lemma row_of_lookup a j :
  j ≤ length s2 → row_of s2 a !!! j = edit a (reverse (take j s2)).
Proof.
  intros Hj. apply list_lookup_total_correct. unfold row_of.
  rewrite list_lookup_fmap, lookup_seq_lt by lia. done.
Qed.

Lemma inner_loop c1 rp rest done :
  s2 = done ++ rest →
  foldl (append_cell c1 (row_of s2 rp))
        ((λ j, edit (c1 :: rp) (reverse (take j s2))) <$> seq 0 (length done + 1))
        (zip (seq (length done) (length rest)) rest)
  = row_of s2 (c1 :: rp).
Proof.
  revert done. induction rest as [| c2 rest IH]; intros done Hs2.
  - simpl. unfold row_of. rewrite Hs2, app_nil_r. done.
  - simpl. rewrite <- (IH (done ++ [c2])) by (by rewrite <- app_assoc).
    rewrite length_app. simpl length. f_equal; [| by rewrite Nat.add_1_r].
    set (j := length done).
    assert (Hlen : length s2 = j + S (length rest))
      by (by rewrite Hs2, length_app).
    rewrite !row_of_lookup by lia.
    rewrite (list_lookup_total_correct _ j (edit (c1 :: rp) (reverse (take j s2))))
      by (rewrite list_lookup_fmap, lookup_seq_lt by lia; done).
    replace (j + 1 + 1) with (S (j + 1)) by lia.
    rewrite seq_S, fmap_app. simpl. f_equal. f_equal.
    assert (Htake1 : take (j + 1) s2 = done ++ [c2]).
    { rewrite Hs2. subst j. rewrite take_app_add. done. }
    assert (Htake0 : take j s2 = done).
    { rewrite Hs2. subst j. by rewrite take_app_length. }
    rewrite Htake1, Htake0, reverse_snoc. apply eq_sym, edit_cons.
Qed.

Lemma next_row_spec done c1 :
  next_row s2 (row_of s2 (reverse done)) (length done, c1)
  = row_of s2 (reverse (done ++ [c1])).
Proof.
  unfold next_row, enumerate. rewrite reverse_snoc.
  rewrite <- (inner_loop c1 (reverse done) s2 []) by done.
  f_equal. simpl. destruct s2; simpl; by rewrite length_reverse, Nat.add_1_r.
Qed.

Lemma outer_loop rest done :
  foldl (next_row s2) (row_of s2 (reverse done))
        (zip (seq (length done) (length rest)) rest)
  = row_of s2 (reverse (done ++ rest)).
Proof.
  revert done. induction rest as [| c1 rest IH]; intros done.
  - by rewrite app_nil_r.
  - cbn [length seq zip_with foldl]. rewrite next_row_spec.
    specialize (IH (done ++ [c1])). rewrite length_app in IH.
    cbn [length] in IH. rewrite Nat.add_1_r in IH.
    rewrite IH. by rewrite <- app_assoc.
Qed.

Lemma last_row_of a : last (row_of s2 a) = Some (edit a (reverse s2)).
Proof.
  unfold row_of. rewrite Nat.add_1_r, seq_S, fmap_app. simpl.
  rewrite last_snoc. by rewrite take_ge.
Qed.

End Rows.

Lemma levenshtein_rows_edit s1 s2 :
  levenshtein_rows s1 s2 = edit (reverse s1) (reverse s2).
Proof.
  unfold levenshtein_rows. case_decide as Hlen.
  - apply length_zero_iff_nil in Hlen as ->.
    by rewrite reverse_nil, edit_nil_r, length_reverse.
  - unfold enumerate.
    pose proof (outer_loop s2 s1 []) as Hrows. cbn [length app] in Hrows.
    assert (Hinit : seq 0 (length s2 + 1) = row_of s2 (reverse [])).
    { unfold row_of. apply list_eq. intros j. rewrite list_lookup_fmap.
      destruct (seq 0 (length s2 + 1) !! j) as [k |] eqn:Hk; [| done].
      simpl. rewrite length_reverse, length_take.
      apply lookup_seq in Hk as [-> Hk]. f_equal. lia. }
    by rewrite Hinit, Hrows, last_row_of.
Qed.

Lemma levenshtein_distance_edit s1 s2 :
  levenshtein_distance s1 s2 = edit (reverse s1) (reverse s2).
Proof.
  unfold levenshtein_distance. case_decide.
  - by rewrite levenshtein_rows_edit, edit_sym.
  - apply levenshtein_rows_edit.
Qed.

Lemma levenshtein_distance_sym s1 s2 :
  levenshtein_distance s1 s2 = levenshtein_distance s2 s1.
Proof. rewrite !levenshtein_distance_edit. apply edit_sym. Qed.

Lemma levenshtein_distance_bound s1 s2 :
  levenshtein_distance s1 s2 ≤ length s1 `max` length s2.
Proof.
  rewrite levenshtein_distance_edit.
  pose proof (edit_bound (reverse s1) (reverse s2)) as Hb.
  by rewrite !length_reverse in Hb.
Qed.


End LevenshteinFacts.

(** ** SimilarityCalculator: range, symmetry and reflexivity of the scores *)

Module SimilarityFacts.
Import TextNormalizer SimilarityCalculator LevenshteinFacts.

Lemma Qnat_pos n : 0 < n → (0 < Qnat n)%Q.
Proof.
  intros Hn. unfold Qnat. change 0%Q with (inject_Z 0).
  rewrite <- Zlt_Qlt. lia.
Qed.

Lemma Qnat_le n m : n ≤ m → (Qnat n <= Qnat m)%Q.
Proof. intros Hnm. unfold Qnat. rewrite <- Zle_Qle. lia. Qed.

Lemma Qnat_ratio n m : 0 < m → n ≤ m → (0 <= Qnat n / Qnat m <= 1)%Q.
Proof.
  intros Hm Hnm. pose proof (Qnat_pos m Hm) as Hpos. split.
  - apply Qle_shift_div_l; [done |]. rewrite Qmult_0_l.
    apply (Qnat_le 0). lia.
  - apply Qle_shift_div_r; [done |]. rewrite Qmult_1_l. by apply Qnat_le.
Qed.


(** Symmetry holds with any rounding. *)
Section WithRounding.
Context `{PyBuiltins} `{Rounding}.

Lemma jaccard_similarity_sym a b :
  jaccard_similarity a b = jaccard_similarity b a.
Proof.
  unfold jaccard_similarity. cbv zeta.
  set (A := list_to_set (extract_keywords a) : gset text).
  set (B := list_to_set (extract_keywords b) : gset text).
  assert (A ∩ B = B ∩ A) as -> by apply (comm_L (∩)).
  assert (A ∪ B = B ∪ A) as -> by apply (comm_L (∪)).
  repeat case_decide; tauto.
Qed.

Lemma normalized_levenshtein_sym a b :
  normalized_levenshtein a b = normalized_levenshtein b a.
Proof.
  unfold normalized_levenshtein. cbv zeta.
  rewrite (levenshtein_distance_sym (normalize a)), (Nat.max_comm (length (normalize a))).
  repeat case_decide; tauto.
Qed.

Lemma weighted_similarity_comm a b wj wl :
  weighted_similarity a b wj wl = weighted_similarity b a wj wl.
Proof.
  unfold weighted_similarity. cbv zeta.
  by rewrite (jaccard_similarity_sym a b), (normalized_levenshtein_sym a b).
Qed.

End WithRounding.

(** Range and reflexivity, in exact arithmetic. *)
Section WithBuiltins.
Context `{PyBuiltins}.

Lemma jaccard_similarity_range a b :
  (0 <= jaccard_similarity a b <= 1)%Q.
Proof.
  unfold jaccard_similarity. cbv zeta. cbn [rnd exact_arithmetic].
  repeat case_decide; try lra.
  apply Qnat_ratio; [done |]. apply subseteq_size.
  etrans; [apply intersection_subseteq_l | apply union_subseteq_l].
Qed.


Lemma normalized_levenshtein_range a b :
  (0 <= normalized_levenshtein a b <= 1)%Q.
Proof.
  unfold normalized_levenshtein. cbv zeta. cbn [rnd exact_arithmetic].
  repeat case_decide; try lra.
  pose proof (levenshtein_distance_bound (normalize a) (normalize b)) as Hb.
  pose proof (Qnat_ratio _ _ ltac:(eassumption) Hb). lra.
Qed.


Lemma keywords_need_text a : extract_keywords a ≠ [] → normalize a ≠ [].
Proof. unfold extract_keywords. intros Hk Hn. by rewrite Hn in Hk. Qed.

End WithBuiltins.
End SimilarityFacts.


(** C10. The weighted score is symmetric in its two texts, for any weights
    and any rounding of the arithmetic: both the keyword-set component and
    the edit-distance component are. *)
Theorem weighted_similarity_sym `{PyBuiltins} `{Rounding}
    (a b : value) (wj wl : Q) :
  SimilarityCalculator.weighted_similarity a b wj wl
  = SimilarityCalculator.weighted_similarity b a wj wl
  ∧ SimilarityCalculator.jaccard_similarity a b
    = SimilarityCalculator.jaccard_similarity b a
  ∧ SimilarityCalculator.normalized_levenshtein a b
    = SimilarityCalculator.normalized_levenshtein b a
  ∧ (∀ s1 s2 : text, SimilarityCalculator.levenshtein_distance s1 s2
                    = SimilarityCalculator.levenshtein_distance s2 s1).
Proof.
  unfold SimilarityCalculator.weighted_similarity. cbv zeta.
  rewrite (SimilarityFacts.jaccard_similarity_sym a b),
    (SimilarityFacts.normalized_levenshtein_sym a b).
  repeat split. apply LevenshteinFacts.levenshtein_distance_sym.
Qed.




(** ** SimilarityCalculator: code similarity *)

Module CodeFacts.
Import TextNormalizer SimilarityCalculator.

Lemma contains_spec b a : contains b a = true ↔ substring a b.
Proof.
  induction b as [| y b IH]; simpl.
  - rewrite orb_false_r, bool_decide_eq_true. split.
    + intros [k Hk]. exists [], k. done.
    + intros (pre & post & Hb). symmetry in Hb.
      apply app_eq_nil in Hb as [-> Hb]. apply app_eq_nil in Hb as [-> ->].
      by exists [].
  - rewrite orb_true_iff, bool_decide_eq_true, IH. split.
    + intros [[k Hk] | (pre & post & Hb)].
      * by exists [], k.
      * exists (y :: pre), post. by rewrite Hb.
    + intros ([| x pre] & post & Hb).
      * left. by exists post.
      * right. injection Hb as -> Hb. by exists pre, post.
Qed.

Lemma contains_nil b : contains b [] = true.
Proof. apply contains_spec. by exists [], b. Qed.

Lemma filter_seq_shift (P : nat → Prop) `{!∀ i, Decision (P i)}
    (Q' : nat → Prop) `{!∀ i, Decision (Q' i)} j n :
  (∀ i, P (S i) ↔ Q' i) →
  length (filter P (seq (S j) n)) = length (filter Q' (seq j n)).
Proof.
  intros HPQ. revert j. induction n as [| n IH]; intros j; [done |].
  simpl seq. rewrite !filter_cons.
  repeat case_decide; simpl; rewrite ?IH; try done; by exfalso; firstorder.
Qed.

Lemma matching_chars_agreeing (a b : text) :
  length (filter (λ i, a !! i = b !! i) (seq 0 (length a `min` length b)))
  = agreeing a b.
Proof.
  unfold agreeing. revert b.
  induction a as [| x a IH]; intros [| y b]; try done.
  simpl length. simpl Nat.min. simpl seq. simpl zip_with.
  pose proof (filter_seq_shift (λ i, (x :: a) !! i = (y :: b) !! i)
                (λ i, a !! i = b !! i) 0 (length a `min` length b)) as Hs.
  rewrite IH in Hs. rewrite !filter_cons. cbn [fst snd].
  repeat case_decide; cbn [length]; rewrite ?Hs by done;
    simplify_eq/=; done.
Qed.

End CodeFacts.

(** C4 (as the code has it). A missing code ([None] or [NaN]) gives 0.  For
    two codes that are present: 1 when they are equal after trimming, 0.9
    when they differ and one trimmed code occurs inside the other, otherwise
    the number of agreeing positions divided by the longer length.  The
    empty string is not a missing code: it is equal to a blank code (1) and
    occurs inside every other one (0.9). *)
Theorem code_similarity_spec `{PyBuiltins} (code1 code2 : value) :
  let c1 := TextNormalizer.strip (TextNormalizer.py_str code1) in
  let c2 := TextNormalizer.strip (TextNormalizer.py_str code2) in
  let r := SimilarityCalculator.code_similarity code1 code2 in
  (isna code1 = true ∨ isna code2 = true → r = 0%Q)
  ∧ (isna code1 = false → isna code2 = false →
       (c1 = c2 → r = 1%Q)
       ∧ (c1 ≠ c2 → substring c1 c2 ∨ substring c2 c1 →
          r = (9 # 10)%Q)
       ∧ (c1 ≠ c2 → ¬ substring c1 c2 → ¬ substring c2 c1 →
          r = (Qnat (agreeing c1 c2)
               / Qnat (length c1 `max` length c2))%Q
          ∧ 0 < length c1 `max` length c2)
       ∧ (code1 = VStr [] →
          r = if decide (c2 = []) then 1%Q else (9 # 10)%Q))
  ∧ SimilarityCalculator.code_similarity (VStr (T "A10")) (VStr (T "A10")) = 1%Q
  ∧ SimilarityCalculator.code_similarity (VStr (T "A10")) (VStr (T "A10.2"))
    = (9 # 10)%Q.
Proof.
  intros c1 c2 r. split; [| split; [| split; reflexivity]].
  - subst r. unfold SimilarityCalculator.code_similarity.
    intros [-> | ->]; [done | by rewrite orb_true_r].
  - intros H1 H2. subst r. unfold SimilarityCalculator.code_similarity.
    rewrite H1, H2. cbn [orb]. cbv zeta. fold c1 c2.
    split; [| split; [| split]].
    + intros E. by rewrite decide_True.
    + intros Hne Hsub. rewrite decide_False by done.
      destruct Hsub as [Hs | Hs]; apply CodeFacts.contains_spec in Hs;
        rewrite Hs; [done | by rewrite orb_true_r].
    + intros Hne Hn1 Hn2. rewrite decide_False by done.
      rewrite <- CodeFacts.contains_spec in Hn1, Hn2.
      apply not_true_is_false in Hn1, Hn2. rewrite Hn1, Hn2. cbn [orb].
      split; [by rewrite CodeFacts.matching_chars_agreeing |].
      destruct c1 as [| x c1']; [| simpl; lia].
      by rewrite CodeFacts.contains_nil in Hn1.
    + intros ->. subst c1. change (TextNormalizer.strip _) with (@nil N).
      destruct (decide (c2 = [])) as [-> | Hc2]; [done |].
      rewrite decide_False by done. by rewrite CodeFacts.contains_nil.
Qed.

Lemma code_similarity_spec_witness :
  @SimilarityCalculator.code_similarity ascii_builtins exact_arithmetic
     (VStr (T "A1X2")) (VStr (T "AX2")) = (Qnat 1 / Qnat 4)%Q.
Proof.
  apply (proj1 (proj2 (proj2 (proj1 (proj2
    (@code_similarity_spec ascii_builtins (VStr (T "A1X2")) (VStr (T "AX2"))))
      eq_refl eq_refl)))).
  - by vm_compute.
  - rewrite <- CodeFacts.contains_spec. by vm_compute.
  - rewrite <- CodeFacts.contains_spec. by vm_compute.
Defined.

(** C4, counterexample: the empty code against "A10" scores 0.9 and against
    itself 1.0, not 0.0. *)
Lemma code_similarity_empty_not_zero :
  @SimilarityCalculator.code_similarity ascii_builtins exact_arithmetic
     (VStr (T "")) (VStr (T "A10")) = (9 # 10)%Q
  ∧ @SimilarityCalculator.code_similarity ascii_builtins exact_arithmetic
      (VStr (T "")) (VStr (T "")) = 1%Q
  ∧ ¬ (∀ x, @SimilarityCalculator.code_similarity ascii_builtins exact_arithmetic
              (VStr (T "")) x == 0)%Q.
Proof.
  split; [reflexivity | split; [reflexivity |]].
  intros Hall. specialize (Hall (VStr (T "A10"))). by vm_compute in Hall.
Qed.

(** ** The sort: a permutation, in descending order, stable *)

(** Closes an equation between closed terms by evaluating both sides. *)
Ltac evaluate :=
  lazymatch goal with |- _ = ?r => vm_cast_no_check (@eq_refl _ r) end.

Module SortFacts.

Lemma Qlt_bool_true a b : Qlt_bool a b = true ↔ (a < b)%Q.
Proof.
  unfold Qlt_bool. rewrite negb_true_iff, <- not_true_iff_false, Qle_bool_iff.
  split; [apply Qnot_le_lt | apply Qlt_not_le].
Qed.

Lemma Qlt_bool_false a b : Qlt_bool a b = false ↔ (b <= a)%Q.
Proof. unfold Qlt_bool. by rewrite negb_false_iff, Qle_bool_iff. Qed.

Section Sort.
Context {A : Type} (key : A → Q).

Lemma insert_desc_perm x l : insert_desc key x l ≡ₚ x :: l.
Proof.
  induction l as [| y l IH]; simpl; [done |].
  destruct (Qlt_bool (key x) (key y)); [| done].
  rewrite IH. apply Permutation_swap.
Qed.

Lemma sort_desc_perm l : sort_desc key l ≡ₚ l.
Proof.
  induction l as [| x l IH]; simpl; [done |].
  fold (sort_desc key l). by rewrite insert_desc_perm, IH.
Qed.

Lemma insert_desc_sorted x l :
  StronglySorted (desc key) l → StronglySorted (desc key) (insert_desc key x l).
Proof.
  induction 1 as [| y l Hl IH Hy]; simpl.
  - repeat constructor.
  - destruct (Qlt_bool (key x) (key y)) eqn:Hxy.
    + apply Qlt_bool_true in Hxy. constructor; [done |].
      rewrite insert_desc_perm. constructor; [| done].
      unfold desc. by apply Qlt_le_weak.
    + apply Qlt_bool_false in Hxy. constructor; [by constructor |].
      constructor; [done |].
      eapply Forall_impl; [exact Hy |]. unfold desc. intros z Hz.
      by apply (Qle_trans _ (key y)).
Qed.

Lemma sort_desc_sorted l : StronglySorted (desc key) (sort_desc key l).
Proof.
  induction l as [| x l IH]; simpl; [constructor |].
  by apply insert_desc_sorted.
Qed.

Lemma insert_desc_stable q x l :
  filter (λ a, key a == q)%Q (insert_desc key x l)
  = filter (λ a, key a == q)%Q (x :: l).
Proof.
  induction l as [| y l IH]; simpl; [done |].
  destruct (Qlt_bool (key x) (key y)) eqn:Hxy; [| done].
  apply Qlt_bool_true in Hxy.
  rewrite (filter_cons _ y), IH, !filter_cons.
  destruct (decide (key x == q)%Q) as [Hx |], (decide (key y == q)%Q) as [Hy |];
    try done.
  rewrite Hx, Hy in Hxy. by apply Qlt_irrefl in Hxy.
Qed.

Lemma sort_desc_stable q l :
  filter (λ a, key a == q)%Q (sort_desc key l) = filter (λ a, key a == q)%Q l.
Proof.
  induction l as [| x l IH]; simpl; [done |].
  fold (sort_desc key l). rewrite insert_desc_stable, !filter_cons, IH. done.
Qed.

End Sort.

Lemma insert_desc_fmap {A B} (key : B → Q) (f : A → B) x l :
  insert_desc key (f x) (f <$> l) = f <$> insert_desc (key ∘ f) x l.
Proof.
  induction l as [| y l IH]; [done |].
  rewrite fmap_cons. cbn [insert_desc compose].
  destruct (Qlt_bool (key (f x)) (key (f y))); [| done].
  by rewrite IH.
Qed.

Lemma sort_desc_cons {A} (key : A → Q) x l :
  sort_desc key (x :: l) = insert_desc key x (sort_desc key l).
Proof. reflexivity. Qed.

Lemma sort_desc_fmap {A B} (key : B → Q) (f : A → B) l :
  sort_desc key (f <$> l) = f <$> sort_desc (key ∘ f) l.
Proof.
  induction l as [| x l IH]; [done |].
  by rewrite fmap_cons, !sort_desc_cons, IH, insert_desc_fmap.
Qed.

Lemma sort_desc_ext {A} (key1 key2 : A → Q) l :
  (∀ x, key1 x = key2 x) → sort_desc key1 l = sort_desc key2 l.
Proof.
  intros Hk. induction l as [| x l IH]; [done |].
  rewrite !sort_desc_cons, IH.
  generalize (sort_desc key2 l). intros k.
  induction k as [| y k IHk]; simpl; [done |].
  by rewrite !Hk, IHk.
Qed.

Lemma slice_to_fmap {A B} (f : A → B) l n :
  slice_to (f <$> l) n = f <$> slice_to l n.
Proof.
  unfold slice_to. rewrite length_fmap. case_decide; by rewrite fmap_take.
Qed.

Lemma sort_desc_short {A} (key : A → Q) l :
  length l ≤ 1 → sort_desc key l = l.
Proof. destruct l as [| x [| y l]]; simpl; [done | done | lia]. Qed.

Lemma all_keys_fmap {K A B} (read : value → option K) (k : A → value)
    (q : A → K) (g : A → B) l :
  (∀ x, x ∈ l → read (k x) = Some (q x)) →
  all_keys read ((λ x, (k x, g x)) <$> l) = Some ((λ x, (q x, g x)) <$> l).
Proof.
  induction l as [| x l IH]; intros Hk; [done |].
  rewrite !fmap_cons. cbn [all_keys]. rewrite Hk by left.
  rewrite IH; [done |]. intros y Hy. apply Hk. by right.
Qed.

(** The sort on keys that are floats: the stable descending sort. *)
Lemma sort_reverse_floats `{PyBuiltins} {A B} (key : A → Q) (g : A → B) l :
  sort_reverse ((λ x, (VNum (key x), g x)) <$> l) = Ok (g <$> sort_desc key l).
Proof.
  unfold sort_reverse. rewrite length_fmap. case_decide as Hlen.
  - rewrite sort_desc_short by done. by rewrite <- list_fmap_compose.
  - rewrite (all_keys_fmap finite_key _ key g) by done.
    rewrite sort_desc_fmap, <- list_fmap_compose. done.
Qed.

Lemma for_each_ok {A B} (f : A → res B) (g : A → B) l :
  (∀ x, x ∈ l → f x = Ok (g x)) → for_each f l = Ok (g <$> l).
Proof.
  induction l as [| x l IH]; intros Hf; simpl; [done |].
  rewrite Hf by left. simpl. rewrite IH; [done |].
  intros y Hy. apply Hf. by right.
Qed.

End SortFacts.

(** ** SBSMappingEngine: the search *)

Module SearchFacts.
Import SBSMappingEngine SortFacts.

Lemma for_each_fmap_ok {A B C} (f : B → res C) (h : A → B) (g : A → C) l :
  (∀ x, x ∈ l → f (h x) = Ok (g x)) → for_each f (h <$> l) = Ok (g <$> l).
Proof.
  induction l as [| x l IH]; intros Hf; [done |].
  rewrite !fmap_cons. cbn [for_each]. rewrite Hf by left.
  cbn. rewrite IH; [done |]. intros y Hy. apply Hf. by right.
Qed.

Lemma copy_columns_spec (rename : string → string) `{!Inj (=) (=) rename}
    skip (row d : gmap string value) :
  (∀ col v, row !! col = Some v → Some col ∉ skip →
            copy_columns rename skip row d !! rename col = Some v)
  ∧ (∀ k, (∀ col, is_Some (row !! col) → Some col ∉ skip → rename col ≠ k) →
          copy_columns rename skip row d !! k = d !! k).
Proof.
  unfold copy_columns.
  apply (map_fold_weak_ind (λ r (m : gmap string value),
    (∀ col v, m !! col = Some v → Some col ∉ skip → r !! rename col = Some v)
    ∧ (∀ k, (∀ col, is_Some (m !! col) → Some col ∉ skip → rename col ≠ k) →
            r !! k = d !! k))).
  - split; [by intros col v; rewrite lookup_empty | done].
  - intros i x m r Hi [IH1 IH2]. split.
    + intros col v Hcol Hskip. destruct (decide (col = i)) as [-> | Hne].
      * rewrite lookup_insert_eq in Hcol. injection Hcol as ->.
        rewrite decide_False by done. apply lookup_insert_eq.
      * rewrite lookup_insert_ne in Hcol by done.
        case_decide; [by apply IH1 |].
        rewrite lookup_insert_ne; [by apply IH1 |].
        intros E. by apply (inj rename) in E.
    + intros k Hk.
      assert (Hm : ∀ col, is_Some (m !! col) → Some col ∉ skip → rename col ≠ k).
      { intros col Hcol. apply Hk. rewrite lookup_insert_ne; [done |].
        intros ->. rewrite Hi in Hcol. by destruct Hcol. }
      case_decide as Hskip; [by apply IH2 |].
      rewrite lookup_insert_ne; [by apply IH2 |].
      apply Hk; [| done]. rewrite lookup_insert_eq. by eexists.
Qed.

Section WithBuiltins.
Context `{PyBuiltins} `{Rounding}.
Variables (src : value) (dcol : string) (ccol : option string) (thr : Q).

Lemma candidate_score r :
  r.2 !! "similarity_score" = None →
  candidate src dcol ccol r !! "similarity_score"
  = Some (VNum (similarity src dcol r)).
Proof.
  intros Hfree. unfold candidate.
  rewrite (proj2 (copy_columns_spec id _ _ _)).
  - unfold new_match. repeat (rewrite lookup_insert_ne by done).
    apply lookup_insert_eq.
  - intros col [v Hv] _ E. unfold id in E. congruence.
Qed.

Lemma searchable_cons idx row df :
  searchable dcol ((idx, row) :: df) →
  is_Some (row !! dcol) ∧ row !! "similarity_score" = None ∧ searchable dcol df.
Proof.
  unfold searchable. intros Hdf. apply Forall_cons in Hdf as [[? ?] Hdf].
  done.
Qed.

Lemma scan_rows_ok df :
  searchable dcol df →
  scan_rows src df dcol ccol thr
  = Ok (candidate src dcol ccol <$> filter (survives src dcol thr) df).
Proof.
  induction df as [| [idx row] df IH]; intros Hdf; [done |].
  apply searchable_cons in Hdf as ([v Hv] & Hfree & Hdf).
  rewrite filter_cons.
  cbn [scan_rows]. unfold getitem at 1. rewrite Hv. cbn [mbind res_bind].
  rewrite (IH Hdf). cbn [mbind res_bind mret res_ret].
  assert (Hsim : SimilarityCalculator.weighted_similarity src v
                   SimilarityCalculator.default_jaccard_weight
                   SimilarityCalculator.default_levenshtein_weight
                 = similarity src dcol (idx, row)).
  { unfold similarity, description_cell. cbn. by rewrite Hv. }
  rewrite Hsim.
  destruct (Qle_bool (rnd thr) (similarity src dcol (idx, row))) eqn:Hle.
  - apply Qle_bool_iff in Hle. rewrite decide_True by done.
    rewrite fmap_cons. unfold candidate at 2. cbn [fst snd].
    unfold description_cell. cbn [fst snd]. rewrite Hv. done.
  - rewrite decide_False; [done |]. unfold survives.
    rewrite <- Qle_bool_iff. congruence.
Qed.

Lemma sort_matches_ok (rows : DataFrame) :
  (∀ r, r ∈ rows → r.2 !! "similarity_score" = None) →
  sort_matches (candidate src dcol ccol <$> rows)
  = Ok (candidate src dcol ccol <$> sort_desc (similarity src dcol) rows).
Proof.
  intros Hfree. unfold sort_matches.
  rewrite (for_each_fmap_ok _ _
             (λ r, (VNum (similarity src dcol r), candidate src dcol ccol r))).
  - cbn [mbind res_bind]. apply sort_reverse_floats.
  - intros r Hr. unfold score_key, getitem.
    rewrite (candidate_score r (Hfree r Hr)). done.
Qed.

Lemma find_best_match_ok df top_n :
  searchable dcol df →
  find_best_match src df dcol ccol top_n thr
  = Ok (candidate src dcol ccol
          <$> slice_to (sort_desc (similarity src dcol)
                          (filter (survives src dcol thr) df)) top_n).
Proof.
  intros Hdf. unfold find_best_match. rewrite (scan_rows_ok df Hdf). cbn.
  rewrite sort_matches_ok.
  - cbn. by rewrite slice_to_fmap.
  - intros r Hr. apply list_elem_of_filter in Hr as [_ Hr].
    unfold searchable in Hdf. rewrite Forall_forall in Hdf.
    by apply Hdf in Hr as [_ ?].
Qed.

End WithBuiltins.
End SearchFacts.

(** X13. On a frame that has the description column and no column labelled
    [similarity_score], and for [top_n] not negative, the search returns the
    dicts of the first [top_n] rows of a list that holds exactly the rows
    whose score is not below the threshold, in descending order of score,
    rows of equal score in their order in the frame; each dict carries the
    score of its row.  This holds with any rounding of the arithmetic. *)
Theorem find_best_match_spec `{PyBuiltins} `{Rounding} (src : value)
    (df : DataFrame) (dcol : string) (ccol : option string) (top_n : Z)
    (thr : Q) :
  searchable dcol df →
  (0 ≤ top_n)%Z →
  ∃ rows : DataFrame,
    SBSMappingEngine.find_best_match src df dcol ccol top_n thr
    = Ok (candidate src dcol ccol <$> take (Z.to_nat top_n) rows)
    ∧ rows ≡ₚ filter (survives src dcol thr) df
    ∧ StronglySorted (desc (similarity src dcol)) rows
    ∧ (∀ q, filter (λ r, similarity src dcol r == q)%Q rows
            = filter (λ r, similarity src dcol r == q)%Q
                (filter (survives src dcol thr) df))
    ∧ (∀ r, r ∈ rows →
            candidate src dcol ccol r !! "similarity_score"
            = Some (VNum (similarity src dcol r))).
Proof.
  intros Hdf Hn.
  exists (sort_desc (similarity src dcol) (filter (survives src dcol thr) df)).
  split; [| split; [| split; [| split]]].
  - rewrite (SearchFacts.find_best_match_ok src dcol ccol thr df top_n Hdf).
    unfold slice_to. by rewrite decide_True.
  - apply SortFacts.sort_desc_perm.
  - apply SortFacts.sort_desc_sorted.
  - intros q. apply SortFacts.sort_desc_stable.
  - intros r Hr. apply SearchFacts.candidate_score.
    rewrite SortFacts.sort_desc_perm in Hr.
    apply list_elem_of_filter in Hr as [_ Hr].
    unfold searchable in Hdf. rewrite Forall_forall in Hdf.
    by apply Hdf in Hr as [_ ?].
Qed.

Lemma find_best_match_spec_witness :
  ∃ rows : DataFrame,
    @SBSMappingEngine.find_best_match ascii_builtins binary64
      (VStr (T "chest x ray")) sample_price_list "pricelist_description"
      (Some "pricelist_code") 5 (1 # 2)
    = Ok (@candidate ascii_builtins binary64 (VStr (T "chest x ray"))
            "pricelist_description" (Some "pricelist_code")
          <$> take (Z.to_nat 5) rows)
    ∧ rows ≡ₚ filter (@survives ascii_builtins binary64
                        (VStr (T "chest x ray")) "pricelist_description"
                        (1 # 2)) sample_price_list
    ∧ StronglySorted (desc (@similarity ascii_builtins binary64
                              (VStr (T "chest x ray"))
                              "pricelist_description")) rows
    ∧ (∀ q, filter (λ r, @similarity ascii_builtins binary64
                           (VStr (T "chest x ray"))
                           "pricelist_description" r == q)%Q rows
            = filter (λ r, @similarity ascii_builtins binary64
                             (VStr (T "chest x ray"))
                             "pricelist_description" r == q)%Q
                (filter (@survives ascii_builtins binary64
                           (VStr (T "chest x ray")) "pricelist_description"
                           (1 # 2)) sample_price_list))
    ∧ (∀ r, r ∈ rows →
            @candidate ascii_builtins binary64 (VStr (T "chest x ray"))
              "pricelist_description" (Some "pricelist_code") r
              !! "similarity_score"
            = Some (VNum (@similarity ascii_builtins binary64
                            (VStr (T "chest x ray"))
                            "pricelist_description" r))).
Proof.
  apply (@find_best_match_spec ascii_builtins binary64); [| lia].
  repeat (apply Forall_cons_2;
          [split; [eexists; vm_compute; reflexivity | by vm_compute] |]).
  apply Forall_nil_2.
Defined.

(** C2, the failing input.  The price list has a column labelled
    [similarity_score], with the cells 0.5 and 0.25.  The loop that adds the
    other columns to the dict of a match writes the cell over the score that
    was computed, and the sort that follows reads that key.  For the query
    "chest x ray" and the threshold 0.5 both rows survive, with the scores
    0.6791666666666667 for "chest x-ray exam" and 1.0 for "chest x ray";
    the search returns "chest x-ray exam" first and "chest x ray" second,
    the order of the cells, and the dicts carry the cells in place of the
    scores. *)
Theorem find_best_match_sorts_by_column :
  let query := VStr (T "chest x ray") in
  let score := @similarity ascii_builtins binary64 query "pricelist_description" in
  let result :=
    @SBSMappingEngine.find_best_match ascii_builtins binary64 query
      clash_price_list "pricelist_description" (Some "pricelist_code") 5
      (1 # 2) in
  column "description" result
  = Ok [Some (VStr (T "chest x-ray exam")); Some (VStr (T "chest x ray"))]
  ∧ column "similarity_score" result
    = Ok [Some (VNum (1 # 2)); Some (VNum (1 # 4))]
  ∧ filter (@survives ascii_builtins binary64 query "pricelist_description"
              (1 # 2)) clash_price_list = clash_price_list
  ∧ score <$> clash_price_list
    = [(1529347373461231 # 2251799813685248)%Q; 1%Q]
  ∧ (1529347373461231 # 2251799813685248 < 1)%Q.
Proof. repeat split; evaluate. Qed.

(** ** SBSMappingEngine: the mapping *)

Module MappingFacts.
Import SBSMappingEngine SortFacts SearchFacts.

(** Reads a key of a dict literal: skips the entries of the other keys. *)
Ltac read_key :=
  repeat (rewrite lookup_insert_ne by done);
  first [apply lookup_insert_eq | apply lookup_empty].

Lemma classify_in_tier `{Rounding} q : in_tier q (classify (Num q)).
Proof.
  unfold classify, ge.
  repeat match goal with
    | |- context [Qle_bool ?a ?b] =>
        let E := fresh "E" in
        destruct (Qle_bool a b) eqn:E;
        [apply Qle_bool_iff in E
        | apply not_true_iff_false in E; rewrite Qle_bool_iff in E;
          apply Qnot_le_lt in E]
    end; simpl; try done.
Qed.

Lemma copy_columns_keeps (rename : string → string) skip
    (row d : gmap string value) k :
  is_Some (d !! k) → is_Some (copy_columns rename skip row d !! k).
Proof.
  intros Hk. unfold copy_columns.
  apply (map_fold_weak_ind (λ r (_ : gmap string value), is_Some (r !! k)));
    [done |].
  intros i x m r _ Hr. case_decide; [done |].
  destruct (decide (rename i = k)) as [-> | Hne].
  - rewrite lookup_insert_eq. by eexists.
  - by rewrite lookup_insert_ne.
Qed.

Lemma original_lookup skip (row d : gmap string value) k :
  (∀ col, String.append "original_" col ≠ k) →
  copy_columns (String.append "original_") skip row d !! k = d !! k.
Proof.
  intros Hk. apply (proj2 (copy_columns_spec _ skip row d)).
  intros col _ _. apply Hk.
Qed.

Lemma original_kept skip (row d : gmap string value) col v :
  row !! col = Some v → Some col ∉ skip →
  copy_columns (String.append "original_") skip row d
    !! String.append "original_" col = Some v.
Proof. apply (proj1 (copy_columns_spec _ skip row d)). Qed.

Section WithBuiltins.
Context `{PyBuiltins} `{Rounding}.

Lemma candidate_description src dcol ccol r :
  is_Some (candidate src dcol ccol r !! "description").
Proof.
  unfold candidate. apply copy_columns_keeps. unfold new_match.
  eexists. read_key.
Qed.

Lemma getitem_Some (m : gmap string value) k v :
  m !! k = Some v → getitem m k = Ok v.
Proof. unfold getitem. by intros ->. Qed.

Lemma map_row_spec pl code_col desc_col thr (r : Z * gmap string value) :
  searchable "pricelist_description" pl →
  is_Some (r.2 !! code_col) → is_Some (r.2 !! desc_col) →
  ∃ result, map_row pl code_col desc_col thr r.2 = Ok result
            ∧ mapped pl desc_col thr r result.
Proof.
  intros Hpl [c Hc] [d Hd].
  unfold map_row.
  rewrite (getitem_Some _ _ _ Hc). cbn [mbind res_bind].
  rewrite (getitem_Some _ _ _ Hd). cbn [mbind res_bind].
  rewrite (find_best_match_ok d "pricelist_description"
             (Some "pricelist_code") thr pl 5 Hpl).
  cbn [mbind res_bind]. unfold mapped.
  assert (description_cell desc_col r = d) as ->
    by (unfold description_cell; by rewrite Hd).
  set (score := similarity d "pricelist_description").
  set (surv := filter (survives d "pricelist_description" thr) pl).
  pose proof (sort_desc_perm score surv) as Hperm.
  pose proof (sort_desc_sorted score surv) as Hsorted.
  unfold slice_to. rewrite decide_True by lia. change (Z.to_nat 5) with 5.
  assert (Hfree : ∀ x, x ∈ surv → x.2 !! "similarity_score" = None).
  { intros x Hx. apply list_elem_of_filter in Hx as [_ Hx].
    unfold searchable in Hpl. rewrite Forall_forall in Hpl.
    by apply Hpl in Hx as [_ ?]. }
  destruct (sort_desc score surv) as [| best rest] eqn:Hrows.
  - apply Permutation_nil in Hperm.
    eexists. split; [reflexivity |]. split; [| by intros Hne].
    intros _. unfold no_match_result. repeat split; read_key.
  - assert (Hbest : best ∈ surv) by (rewrite <- Hperm; left).
    cbn [take]. rewrite fmap_cons.
    rewrite (getitem_Some _ _ _ (candidate_score d "pricelist_description"
               (Some "pricelist_code") best (Hfree best Hbest))).
    cbn [mbind res_bind as_number].
    destruct (candidate_description d "pricelist_description"
                (Some "pricelist_code") best) as [description Hdescription].
    rewrite (getitem_Some _ _ _ Hdescription). cbn [mbind res_bind].
    assert (Hsecond : ∃ second,
      match (candidate d "pricelist_description" (Some "pricelist_code") best
             :: (candidate d "pricelist_description" (Some "pricelist_code")
                 <$> take 4 rest)) !! 1 with
      | Some m => getitem m "similarity_score"
      | None => Ok VNone
      end = Ok second
      ∧ (2 ≤ length surv → ∃ r2, r2 ∈ surv ∧ second = VNum (score r2))
      ∧ (length surv < 2 → second = VNone)).
    { rewrite <- (Permutation_length Hperm).
      destruct rest as [| r2 rest'].
      - exists VNone. split; [done |]. split; [simpl; lia | done].
      - assert (Hr2 : r2 ∈ surv) by (rewrite <- Hperm; right; left).
        exists (VNum (score r2)). split; [| split; [by exists r2 | simpl; lia]].
        cbn [take]. rewrite fmap_cons. cbn [lookup list_lookup].
        apply getitem_Some, candidate_score, Hfree, Hr2. }
    destruct Hsecond as (second & -> & Hsome & Hnone).
    cbn [mbind res_bind mret res_ret].
    eexists. split; [reflexivity |]. split.
    { intros Hs. rewrite Hs in Hbest. by apply elem_of_nil in Hbest. }
    intros _. exists best, (classify (Num (score best))).
    assert (Hkey : ∀ k v (m : gmap string value),
      (∀ col, String.append "original_" col ≠ k) → m !! k = Some v →
      copy_columns (String.append "original_") [Some code_col; Some desc_col]
        r.2 m !! k = Some v).
    { intros k v m Hk Hm. by rewrite original_lookup. }
    split; [done |]. split; [| split; [| split; [| split; [| split]]]].
    + intros r' Hr'. rewrite <- Hperm in Hr'.
      apply elem_of_cons in Hr' as [-> | Hr']; [apply Qle_refl |].
      apply StronglySorted_inv in Hsorted as [_ Hsorted].
      rewrite Forall_forall in Hsorted. by apply Hsorted.
    + apply Hkey; [done |]. unfold match_result. read_key.
    + apply classify_in_tier.
    + apply Hkey; [done |]. unfold match_result. read_key.
    + intros Hlen. destruct (Hsome Hlen) as (r2 & Hr2 & ->). exists r2.
      split; [done |]. apply Hkey; [done |]. unfold match_result. read_key.
    + intros Hlen. rewrite (Hnone Hlen).
      apply Hkey; [done |]. unfold match_result. read_key.
Qed.

End WithBuiltins.
End MappingFacts.

Module BatchFacts.
Import SBSMappingEngine MappingFacts.

Lemma column_single k (result : res (list (gmap string value))) v :
  column k result = Ok [Some v] →
  ∃ record, result = Ok [record] ∧ record !! k = Some v.
Proof.
  destruct result as [[| record [| ? ?]] |]; try done.
  intros [= Hk]. by exists record.
Qed.

Lemma for_each_Forall2 {A B} (f : A → res B) (P : A → B → Prop) l :
  Forall (λ x, ∃ y, f x = Ok y ∧ P x y) l →
  ∃ ys, for_each f l = Ok ys ∧ Forall2 P l ys.
Proof.
  induction 1 as [| x l (y & Hy & HP) _ (ys & Hys & HPs)].
  - by exists [].
  - exists (y :: ys). cbn [for_each]. rewrite Hy. cbn. rewrite Hys.
    split; [done | by constructor].
Qed.

Section WithBuiltins.
Context `{PyBuiltins} `{Rounding}.

(** A row without a surviving candidate gets the fixed nine fields and
    nothing else. *)
Lemma map_row_no_match pl code_col desc_col thr (row : gmap string value) c d :
  searchable "pricelist_description" pl →
  row !! code_col = Some c → row !! desc_col = Some d →
  filter (survives d "pricelist_description" thr) pl = [] →
  map_row pl code_col desc_col thr row = Ok (no_match_result c d).
Proof.
  intros Hpl Hc Hd Hsurv. unfold map_row.
  rewrite (getitem_Some _ _ _ Hc). cbn [mbind res_bind].
  rewrite (getitem_Some _ _ _ Hd). cbn [mbind res_bind].
  rewrite (SearchFacts.find_best_match_ok d "pricelist_description"
             (Some "pricelist_code") thr pl 5 Hpl).
  by rewrite Hsurv.
Qed.

Lemma no_match_result_original c d col :
  no_match_result c d !! String.append "original_" col = None.
Proof. unfold no_match_result. read_key. Qed.

(** With a price list loaded, a source row without the code column stops
    the batch with [KeyError]: the rows are read only after the check on the
    price list. *)
Lemma map_to_price_list_bad_row (self : engine) pl idx
    (row : gmap string value) rest code_col desc_col thr :
  price_list self = Some pl → row !! code_col = None →
  map_to_price_list self ((idx, row) :: rest) code_col desc_col thr
  = Raise (KeyError code_col).
Proof.
  intros Hself Hrow. unfold map_to_price_list. rewrite Hself.
  cbn [for_each]. unfold map_row, getitem. by rewrite Hrow.
Qed.

(** A row with a surviving candidate keeps every other column under the
    prefix. *)
Lemma map_row_keeps_extras pl code_col desc_col thr (row : gmap string value)
    result col v :
  filter (survives (default VNone (row !! desc_col))
            "pricelist_description" thr) pl ≠ [] →
  searchable "pricelist_description" pl →
  map_row pl code_col desc_col thr row = Ok result →
  row !! col = Some v → col ≠ code_col → col ≠ desc_col →
  result !! String.append "original_" col = Some v.
Proof.
  intros Hsurv Hpl Hrow Hcol Hc Hd. unfold map_row in Hrow.
  destruct (getitem row code_col) as [c |]; [| done].
  cbn [mbind res_bind] in Hrow.
  destruct (row !! desc_col) as [d |] eqn:Hdesc;
    [rewrite (getitem_Some _ _ _ Hdesc) in Hrow | by unfold getitem in Hrow; rewrite Hdesc in Hrow].
  cbn [mbind res_bind default] in *.
  rewrite (SearchFacts.find_best_match_ok d "pricelist_description"
             (Some "pricelist_code") thr pl 5 Hpl) in Hrow.
  cbn [mbind res_bind] in Hrow.
  destruct (_ <$> _) as [| best_match rest] eqn:Hmatches in Hrow.
  { apply fmap_nil_inv in Hmatches. unfold slice_to in Hmatches.
    rewrite decide_True in Hmatches by lia.
    destruct (sort_desc _ _) eqn:Hsorted in Hmatches; [| done].
    pose proof (SortFacts.sort_desc_perm (similarity d "pricelist_description")
                 (filter (survives d "pricelist_description" thr) pl)) as Hp.
    rewrite Hsorted in Hp. by apply Permutation_nil in Hp. }
  repeat match type of Hrow with
    | context [mbind _ ?m] => destruct m; cbn [mbind res_bind] in Hrow; [| done]
    end.
  injection Hrow as <-. apply original_kept; [done |].
  rewrite !elem_of_cons, elem_of_nil. intros [[= ->] | [[= ->] | []]]; done.
Qed.

End WithBuiltins.
End BatchFacts.

(** X14. For a loaded price list that has the description column and no
    column labelled [similarity_score], and source rows that have the code and the
    description column, the mapping returns one record per source row, in
    order, and each record is as [mapped] describes: the tier of the best
    score when a candidate survives, a second score exactly when two or more
    survive, and the [NO_MATCH] record otherwise.  This holds with any
    rounding of the arithmetic. *)
Theorem map_to_price_list_classifies `{PyBuiltins} `{Rounding}
    (self : SBSMappingEngine.engine) (pl sbs_df : DataFrame)
    (code_col desc_col : string) (thr : Q) :
  SBSMappingEngine.price_list self = Some pl →
  searchable "pricelist_description" pl →
  mappable code_col desc_col sbs_df →
  ∃ results,
    SBSMappingEngine.map_to_price_list self sbs_df code_col desc_col thr
    = Ok results
    ∧ Forall2 (mapped pl desc_col thr) sbs_df results.
Proof.
  intros Hself Hpl Hdf. unfold SBSMappingEngine.map_to_price_list.
  rewrite Hself. apply BatchFacts.for_each_Forall2.
  eapply Forall_impl; [exact Hdf |].
  intros [idx row] [Hc Hd].
  by apply (MappingFacts.map_row_spec pl code_col desc_col thr (idx, row)).
Qed.

Lemma map_to_price_list_classifies_witness :
  ∃ results,
    @SBSMappingEngine.map_to_price_list ascii_builtins binary64
      {| SBSMappingEngine.price_list := Some sample_price_list |}
      sample_source "V3_Code" "V3_Description" (1 # 2) = Ok results
    ∧ Forall2 (@mapped ascii_builtins binary64 sample_price_list
                 "V3_Description" (1 # 2))
        sample_source results.
Proof.
  apply (@map_to_price_list_classifies ascii_builtins binary64);
    [reflexivity | |].
  - repeat (apply Forall_cons_2;
            [split; [eexists; vm_compute; reflexivity | by vm_compute] |]).
    apply Forall_nil_2.
  - repeat (apply Forall_cons_2;
            [split; eexists; vm_compute; reflexivity |]).
    apply Forall_nil_2.
Defined.

(** C1, the failing input.  The price list has a column labelled
    [similarity_score], with the cells 0.5 and 0.25.  The search writes the
    cell over the score of each match and orders the matches by it.  For the
    source row "chest x ray" and the threshold 0.5 the two candidates score
    0.6791666666666667 ("chest x-ray exam") and 1.0 ("chest x ray"), so that
    the best score is 1.0, of tier [EXACT]; the record names "chest x-ray
    exam", carries the cell 0.5 as its score and the cell 0.25 as its second
    score, and its tier is [LOW]. *)
Theorem map_to_price_list_tier_of_column :
  let results :=
    @SBSMappingEngine.map_to_price_list ascii_builtins binary64
      {| SBSMappingEngine.price_list := Some clash_price_list |}
      sample_source "V3_Code" "V3_Description" (1 # 2) in
  column "matched_pricelist_description" results
  = Ok [Some (VStr (T "chest x-ray exam"))]
  ∧ column "similarity_score" results = Ok [Some (VNum (1 # 2))]
  ∧ column "confidence" results = Ok [Some (VStr (confidence_value LOW))]
  ∧ column "second_best_score" results = Ok [Some (VNum (1 # 4))]
  ∧ @similarity ascii_builtins binary64 (VStr (T "chest x ray"))
      "pricelist_description" <$> clash_price_list
    = [(1529347373461231 # 2251799813685248)%Q; 1%Q]
  ∧ @SBSMappingEngine.classify binary64 (Num 1) = EXACT.
Proof. repeat split; evaluate. Qed.

(** C7. An engine without a price list raises the configuration error for
    every source frame, whatever its rows are: no row is read and no record
    is returned. *)
Theorem map_to_price_list_unloaded `{PyBuiltins} `{Rounding}
    (self : SBSMappingEngine.engine) (sbs_df : DataFrame)
    (code_col desc_col : string) (thr : Q) :
  SBSMappingEngine.price_list self = None →
  SBSMappingEngine.map_to_price_list self sbs_df code_col desc_col thr
  = Raise (ValueError "Price list not loaded. Call load_price_list() first.").
Proof. intros Hself. unfold SBSMappingEngine.map_to_price_list. by rewrite Hself. Qed.

Lemma map_to_price_list_unloaded_witness :
  @SBSMappingEngine.map_to_price_list ascii_builtins binary64
    SBSMappingEngine.init sample_source "V3_Code" "V3_Description"
    (round64 (6 # 10))
  = Raise (ValueError "Price list not loaded. Call load_price_list() first.").
Proof.
  apply (@map_to_price_list_unloaded ascii_builtins binary64). reflexivity.
Defined.

(** C3, the failing input.  The source row carries the extra column
    [Region].  With threshold 0.99 no candidate survives and the record is
    the [NO_MATCH] record, without [original_Region]; with threshold 0.5 a
    candidate survives and the record has [original_Region]. *)
Theorem no_match_loses_original_fields :
  (∃ result,
     @SBSMappingEngine.map_to_price_list ascii_builtins exact_arithmetic
       {| SBSMappingEngine.price_list := Some sample_price_list |}
       sample_source "V3_Code" "V3_Description" (99 # 100) = Ok [result]
     ∧ result = SBSMappingEngine.no_match_result
                  (VStr (T "S1")) (VStr (T "chest x ray"))
     ∧ result !! "original_Region" = None)
  ∧ (∃ result,
       @SBSMappingEngine.map_to_price_list ascii_builtins exact_arithmetic
         {| SBSMappingEngine.price_list := Some sample_price_list |}
         sample_source "V3_Code" "V3_Description" (5 # 10) = Ok [result]
       ∧ result !! "original_Region" = Some (VStr (T "north"))).
Proof.
  split.
  - exists (SBSMappingEngine.no_match_result
              (VStr (T "S1")) (VStr (T "chest x ray"))).
    split; [evaluate | split; [reflexivity | evaluate]].
  - apply BatchFacts.column_single. evaluate.
Qed.

(** ** MappingValidator: the review flags *)

Module ValidatorFacts.
Import MappingValidator SortFacts MappingFacts.

Lemma cell_is_confidence c c' :
  cell_is (VStr (confidence_value c)) (confidence_value c') = true ↔ c = c'.
Proof. destruct c, c'; vm_compute; split; congruence. Qed.

Section WithRounding.
Context `{Rounding}.

Lemma is_ambiguous_spec g row best second c :
  scored row best second c →
  ∃ ambiguous, is_ambiguous g row = Ok ambiguous
    ∧ (ambiguous = true ↔
         ∃ q, second = Some q ∧ (rnd (rnd best - rnd q) < rnd g)%Q).
Proof.
  intros (Hbest & Hsecond & _). unfold is_ambiguous.
  destruct second as [q |].
  - rewrite (getitem_Some _ _ _ Hsecond). cbn [mbind res_bind isna is_None orb].
    rewrite (getitem_Some _ _ _ Hbest).
    cbn [mbind res_bind sub as_int to_float mret res_ret lt].
    eexists. split; [done |]. rewrite Qlt_bool_true. split.
    + intros Hlt. by exists q.
    + by intros (q' & [= <-] & Hlt).
  - exists false.
    split; [| by split; [| intros (q & ? & _)]].
    destruct Hsecond as [Hs | Hs]; by rewrite (getitem_Some _ _ _ Hs).
Qed.

Lemma flag_row_spec g row :
  (∃ best second c, scored row best second c) →
  ∃ row', flag_row g row = Ok row' ∧ flagged g row row'.
Proof.
  intros (best & second & c & Hrow).
  destruct (is_ambiguous_spec g row best second c Hrow) as (amb & Hamb & _).
  pose proof Hrow as (_ & _ & Hconf).
  unfold flag_row, add_flags. rewrite Hamb. cbn [mbind res_bind].
  rewrite (getitem_Some _ _ _ Hconf). cbn [mbind res_bind mret res_ret].
  eexists. split; [done |].
  intros best' second' c' Hrow'.
  destruct (is_ambiguous_spec g row best' second' c' Hrow') as (amb' & Hamb' & Hiff).
  assert (amb' = amb) as -> by congruence.
  assert (c' = c) as ->.
  { destruct Hrow' as (_ & _ & Hconf'). rewrite Hconf in Hconf'.
    injection Hconf' as Hconf'. apply cell_is_confidence.
    rewrite Hconf'. by apply cell_is_confidence. }
  eexists _, _. split; [| split; [| split; [| split]]].
  - rewrite lookup_insert_ne by done. apply lookup_insert_eq.
  - apply lookup_insert_eq.
  - done.
  - rewrite !orb_true_iff, !cell_is_confidence. tauto.
  - intros k Hk1 Hk2. by rewrite !lookup_insert_ne.
Qed.

(** When every row can be flagged, the two passes over the frame give the
    flagged rows. *)
Lemma flag_ambiguous_matches_rows g df out :
  for_each (flag_row g) df = Ok out → flag_ambiguous_matches df g = Ok out.
Proof.
  unfold flag_ambiguous_matches. revert out.
  induction df as [| row df IH]; intros out Hout; [done |].
  change (for_each (flag_row g) (row :: df))
    with (y ← flag_row g row; ys ← for_each (flag_row g) df; mret (y :: ys))
    in Hout.
  change (for_each (is_ambiguous g) (row :: df))
    with (y ← is_ambiguous g row; ys ← for_each (is_ambiguous g) df;
          mret (y :: ys)).
  assert (Hrow : flag_row g row = a ← is_ambiguous g row; add_flags row a)
    by done.
  rewrite Hrow in Hout. clear Hrow.
  destruct (is_ambiguous g row) as [a |]; cbn [mbind res_bind] in *; [| done].
  destruct (add_flags row a) as [row' |] eqn:Hrow;
    cbn [mbind res_bind] in Hout; [| done].
  destruct (for_each (flag_row g) df) as [out' |];
    cbn [mbind res_bind mret res_ret] in Hout; [| done].
  injection Hout as <-. specialize (IH out' eq_refl).
  destruct (for_each (is_ambiguous g) df) as [flags |];
    cbn [mbind res_bind mret res_ret] in *; [| done].
  change (zip (row :: df) (a :: flags)) with ((row, a) :: zip df flags).
  change (for_each ?f ((row, a) :: ?l))
    with (y ← f (row, a); ys ← for_each f l; mret (y :: ys)).
  cbn beta iota. rewrite Hrow. cbn [mbind res_bind]. by rewrite IH.
Qed.

End WithRounding.
End ValidatorFacts.

(** C9. For a frame of mapping records with a float as best score, a second
    score that is a float or missing, and the label of a tier, flagging
    returns one record per input record, in order: [is_ambiguous] is true
    exactly when a second score exists and the difference of the best score
    and the second score, as the float subtraction gives it, is less than
    the gap threshold; [requires_review] is true exactly when the record is
    ambiguous or of tier [LOW] or [VERY_LOW]; the other fields are
    unchanged.  This holds with any rounding of the subtraction.  In
    binary64, the floats 0.80 and 0.78 under the default threshold 0.05 give
    an ambiguous record. *)
Theorem flag_ambiguous_matches_spec `{Rounding}
    (mapping_df : list (gmap string value)) (g : Q) :
  mapping_df ≠ [] →
  Forall (λ row, ∃ best second c, scored row best second c) mapping_df →
  (∃ out, MappingValidator.flag_ambiguous_matches mapping_df g = Ok out
          ∧ Forall2 (flagged g) mapping_df out)
  ∧ (∀ row c,
       scored row (round64 (80 # 100)) (Some (round64 (78 # 100))) c →
       ∃ row', @MappingValidator.flag_row binary64
                 MappingValidator.default_score_difference_threshold
                 row
               = Ok row'
               ∧ row' !! "is_ambiguous" = Some (VBool true)).
Proof.
  intros _ Hdf. split.
  - destruct (BatchFacts.for_each_Forall2 (MappingValidator.flag_row g)
                (flagged g) mapping_df) as (out & Hout & Hflagged).
    { eapply Forall_impl; [exact Hdf |]. intros row Hrow.
      by apply ValidatorFacts.flag_row_spec. }
    exists out. split; [| done].
    by apply ValidatorFacts.flag_ambiguous_matches_rows.
  - intros row c Hrow.
    destruct (@ValidatorFacts.flag_row_spec binary64
                MappingValidator.default_score_difference_threshold
                row)
      as (row' & Hflag & Hflagged); [by eexists _, _, _ |].
    exists row'. split; [done |].
    destruct (Hflagged _ _ _ Hrow) as (amb & rev & Hamb & _ & Hiff & _).
    rewrite Hamb. do 2 f_equal. apply Hiff. eexists. split; [done |].
    by vm_compute.
Qed.

Lemma flag_ambiguous_matches_spec_witness :
  ∃ out, @MappingValidator.flag_ambiguous_matches binary64 [sample_result]
           MappingValidator.default_score_difference_threshold
         = Ok out
         ∧ Forall2 (@flagged binary64
                      MappingValidator.default_score_difference_threshold)
             [sample_result] out.
Proof.
  apply (@flag_ambiguous_matches_spec binary64 [sample_result]
           MappingValidator.default_score_difference_threshold);
    [done |].
  apply Forall_cons_2; [| apply Forall_nil_2].
  exists (round64 (80 # 100)), (Some (round64 (78 # 100))), MEDIUM.
  repeat split; by vm_compute.
Defined.

(** * Further properties *)

(** ** TextNormalizer: idempotence and the shape of keywords *)

Module NormalizerMore.
Import TextNormalizer NormalizerFacts.

Lemma adjacent_ws_app l1 l2 :
  adjacent_ws (l1 ++ l2) = false →
  adjacent_ws l1 = false ∧ adjacent_ws l2 = false.
Proof.
  induction l1 as [| c l1 IH]; simpl; [done |].
  intros Hadj. apply orb_false_iff in Hadj as [Hc Hadj].
  destruct (IH Hadj) as [H1 H2]. split; [| done].
  rewrite H1, orb_false_r.
  destruct (is_space c); [| done]. simpl in *.
  destruct l1; simpl in *; done.
Qed.

Lemma sub_special_id t : Forall kept t → sub_special t = t.
Proof.
  unfold sub_special. induction 1 as [| c t Hc _ IH]; simpl; [done |].
  rewrite IH. f_equal.
  destruct Hc as [-> | [Hd | Hs]]; [done | |].
  - rewrite Hd. by rewrite orb_true_r.
  - rewrite Hs. by rewrite orb_true_r.
Qed.

Lemma sub_spaces_id t :
  Forall clean t → adjacent_ws t = false → sub_spaces t = t.
Proof.
  induction 1 as [| c t Hc _ IH]; simpl; [done |].
  intros Hadj. apply orb_false_iff in Hadj as [Hc' Hadj].
  rewrite (IH Hadj).
  destruct (is_space c) eqn:Hs; [| done].
  simpl in Hc'. rewrite Hc'. f_equal. symmetry. by apply clean_space.
Qed.

Lemma lstrip_id t :
  (∀ c, head t = Some c → is_space c = false) → lstrip t = t.
Proof.
  destruct t as [| c t]; simpl; [done |].
  intros Hc. by rewrite (Hc c eq_refl).
Qed.

Lemma strip_id t :
  (∀ c, head t = Some c → is_space c = false) →
  (∀ c, last t = Some c → is_space c = false) → strip t = t.
Proof.
  intros Hhead Hlast. unfold strip, rstrip. rewrite (lstrip_id t Hhead).
  rewrite lstrip_id; [apply reverse_involutive |].
  intros c. rewrite head_reverse. apply Hlast.
Qed.

Section WithBuiltins.
Context `{PyBuiltins}.

(** The shape of a normalised text, in the form the lemmas above use. *)
Lemma normalize_form v :
  Forall clean (normalize v)
  ∧ adjacent_ws (normalize v) = false
  ∧ (∀ c, head (normalize v) = Some c → is_space c = false)
  ∧ (∀ c, last (normalize v) = Some c → is_space c = false).
Proof.
  unfold normalize. destruct (isna v || is_None v); [by repeat split |].
  set (u := sub_spaces _).
  assert (Hclean : Forall clean u)
    by apply sub_spaces_clean, sub_special_kept.
  assert (Hsep : adjacent_ws u = false) by apply sub_spaces_separated.
  destruct (strip_split u) as (ws1 & ws2 & Hu & Hhead & Hlast).
  rewrite Hu in Hclean, Hsep.
  apply Forall_app in Hclean as [_ Hclean].
  apply Forall_app in Hclean as [Hclean _].
  apply adjacent_ws_app in Hsep as [_ Hsep].
  apply adjacent_ws_app in Hsep as [Hsep _].
  done.
Qed.

Lemma normalize_normalized v :
  lower_keeps_clean → normalize (VStr (normalize v)) = normalize v.
Proof.
  intros Hlower. destruct (normalize_form v) as (Hclean & Hsep & Hhead & Hlast).
  unfold normalize at 1. cbn [isna is_None orb py_str]. cbv zeta.
  rewrite (Hlower _ Hclean).
  rewrite sub_special_id by (eapply Forall_impl; [exact Hclean | apply clean_kept]).
  rewrite sub_spaces_id by done. by apply strip_id.
Qed.

Lemma split_from_chars word t w :
  Forall word_char word → Forall clean t →
  w ∈ split_from word t → Forall word_char w.
Proof.
  revert word. induction t as [| c t IH]; intros word Hword Ht; simpl.
  - destruct word; [by intros ?%elem_of_nil |].
    by intros ->%list_elem_of_singleton.
  - apply Forall_cons in Ht as [Hc Ht].
    destruct (is_space c) eqn:Hs.
    + destruct word as [| x word'].
      * by apply IH.
      * intros [-> | Hw]%elem_of_cons; [done |]. by apply (IH []).
    + apply IH; [| done]. apply Forall_app. split; [done |].
      apply Forall_singleton.
      destruct Hc as [Hl | [Hd | ->]]; [by left | by right | done].
Qed.

End WithBuiltins.

Lemma ascii_lower_keeps_clean : @lower_keeps_clean ascii_builtins.
Proof.
  intros t Ht. cbn [str_lower ascii_builtins]. unfold ascii_lower.
  induction Ht as [| c t Hc _ IH]; [done |].
  cbn [map]. rewrite IH. f_equal.
  destruct ((65 <=? c)%N && (c <=? 90)%N) eqn:Hup; [| done].
  exfalso. apply andb_true_iff in Hup as [H1%N.leb_le H2%N.leb_le].
  destruct Hc as [Hl | [Hd | ->]].
  - unfold is_lower_ascii in Hl.
    apply andb_true_iff in Hl as [H3%N.leb_le _]. lia.
  - unfold is_digit in Hd.
    apply andb_true_iff in Hd as [_ H4%N.leb_le]. lia.
  - unfold SPACE in *. lia.
Qed.

End NormalizerMore.

(** X1. Normalising a normalised text changes nothing, whenever lowercasing
    leaves lowercase ASCII letters, digits and spaces alone. *)
Theorem normalize_idempotent `{PyBuiltins} (v : value) :
  lower_keeps_clean →
  TextNormalizer.normalize (VStr (TextNormalizer.normalize v))
  = TextNormalizer.normalize v.
Proof. apply NormalizerMore.normalize_normalized. Qed.

Lemma normalize_idempotent_witness :
  @TextNormalizer.normalize ascii_builtins
    (VStr (@TextNormalizer.normalize ascii_builtins
             (VStr (T "  Chest X-Ray,  (PA) view! "))))
  = @TextNormalizer.normalize ascii_builtins
      (VStr (T "  Chest X-Ray,  (PA) view! ")).
Proof.
  apply (@normalize_idempotent ascii_builtins).
  apply NormalizerMore.ascii_lower_keeps_clean.
Defined.

(** X2. Every keyword is longer than two characters, is not a stop word and
    consists of lowercase ASCII letters and digits only. *)
Theorem extract_keywords_shape `{PyBuiltins} (v : value) (w : text) :
  w ∈ TextNormalizer.extract_keywords v →
  2 < length w
  ∧ (w ∉ TextNormalizer.stop_words)
  ∧ Forall word_char w.
Proof.
  unfold TextNormalizer.extract_keywords. cbv zeta.
  intros [[Hstop Hlen] Hw]%list_elem_of_filter.
  split; [done | split; [done |]].
  apply (NormalizerMore.split_from_chars [] (TextNormalizer.normalize v));
    [constructor | | done].
  apply NormalizerMore.normalize_form.
Qed.

Lemma extract_keywords_shape_witness :
  2 < length (T "chest")
  ∧ (T "chest" ∉ TextNormalizer.stop_words)
  ∧ Forall word_char (T "chest").
Proof.
  apply (@extract_keywords_shape ascii_builtins
           (VStr (T "The CHEST x-ray, per code"))).
  vm_compute. left.
Defined.

(** ** SimilarityCalculator: the Levenshtein distance is a metric *)

Module LevenshteinMore.
Import SimilarityCalculator LevenshteinFacts.

Lemma edit_zero a b : edit a b = 0 ↔ a = b.
Proof.
  split; [| intros ->; apply edit_refl].
  revert b. induction a as [| x a IH]; intros [| y b]; try done.
  rewrite edit_cons. intros Hmin.
  assert (Hab : edit a b = 0) by lia.
  assert (Hxy : differ x y = 0) by lia.
  rewrite (IH b Hab). f_equal.
  destruct (decide (x = y)) as [| Hne]; [done |].
  unfold differ in Hxy. by rewrite decide_True in Hxy.
Qed.

Lemma edit_lower a b : length a - length b ≤ edit a b.
Proof.
  revert b. induction a as [| x a IH]; intros b; [simpl; lia |].
  induction b as [| y b IHb]; [simpl; lia |].
  rewrite edit_cons. pose proof (IH (y :: b)). pose proof (IH b).
  simpl length in *. lia.
Qed.

Lemma differ_triangle x y z : differ x z ≤ differ x y + differ y z.
Proof. unfold differ. repeat case_decide; try lia; congruence. Qed.

Lemma edit_triangle_len n a b c :
  length a + length b + length c ≤ n → edit a c ≤ edit a b + edit b c.
Proof.
  revert a b c. induction n as [| n IH]; intros a b c Hn.
  - destruct a, b, c; simpl in Hn; lia.
  - destruct a as [| x a].
    { pose proof (edit_lower c b). rewrite (edit_sym c b) in *.
      simpl. lia. }
    destruct c as [| z c].
    { pose proof (edit_lower (x :: a) b). rewrite !edit_nil_r. lia. }
    destruct b as [| y b].
    { rewrite edit_nil_r. pose proof (edit_bound (x :: a) (z :: c)).
      change (edit [] (z :: c)) with (length (z :: c)). lia. }
    simpl length in Hn.
    pose proof (IH a (y :: b) (z :: c)).
    pose proof (IH (x :: a) (y :: b) c).
    pose proof (IH (x :: a) b (z :: c)).
    pose proof (IH (x :: a) b c).
    pose proof (IH a b (z :: c)).
    pose proof (IH a b c).
    pose proof (differ_triangle x y z).
    rewrite !edit_cons in *. simpl length in *. lia.
Qed.

Lemma edit_triangle a b c : edit a c ≤ edit a b + edit b c.
Proof. by apply (edit_triangle_len (length a + length b + length c)). Qed.

End LevenshteinMore.

(** X3. The distance computed row by row obeys the recurrence of the edit
    distance on the last characters: against the empty string it is the
    length, and otherwise the least of a deletion, an insertion and a
    substitution (free when the two last characters are equal). *)
Theorem levenshtein_distance_recurrence (s1 s2 : text) (a b : N) :
  SimilarityCalculator.levenshtein_distance s1 [] = length s1
  ∧ SimilarityCalculator.levenshtein_distance [] s2 = length s2
  ∧ SimilarityCalculator.levenshtein_distance (s1 ++ [a]) (s2 ++ [b])
    = (SimilarityCalculator.levenshtein_distance s1 (s2 ++ [b]) + 1)
      `min` ((SimilarityCalculator.levenshtein_distance (s1 ++ [a]) s2 + 1)
             `min` (SimilarityCalculator.levenshtein_distance s1 s2
                    + if decide (a = b) then 0 else 1)).
Proof.
  rewrite !LevenshteinFacts.levenshtein_distance_edit.
  rewrite !reverse_snoc, reverse_nil, LevenshteinFacts.edit_nil_r, length_reverse.
  split; [done |]. split; [by simpl; rewrite length_reverse |].
  rewrite LevenshteinFacts.edit_cons. unfold differ.
  repeat case_decide; congruence.
Qed.

(** X4. The distance is a metric on strings: it is zero exactly for equal
    strings and obeys the triangle inequality. *)
Theorem levenshtein_distance_metric (s1 s2 s3 : text) :
  (SimilarityCalculator.levenshtein_distance s1 s2 = 0 ↔ s1 = s2)
  ∧ SimilarityCalculator.levenshtein_distance s1 s3
    ≤ SimilarityCalculator.levenshtein_distance s1 s2
      + SimilarityCalculator.levenshtein_distance s2 s3.
Proof.
  rewrite !LevenshteinFacts.levenshtein_distance_edit. split.
  - rewrite LevenshteinMore.edit_zero. split; [| by intros ->].
    intros Hrev. apply (f_equal reverse) in Hrev.
    by rewrite !reverse_involutive in Hrev.
  - apply LevenshteinMore.edit_triangle.
Qed.

(** X5. The distance lies between the difference and the maximum of the two
    lengths. *)
Theorem levenshtein_distance_bounds (s1 s2 : text) :
  length s1 - length s2 ≤ SimilarityCalculator.levenshtein_distance s1 s2
  ∧ length s2 - length s1 ≤ SimilarityCalculator.levenshtein_distance s1 s2
  ∧ SimilarityCalculator.levenshtein_distance s1 s2
    ≤ length s1 `max` length s2.
Proof.
  split; [| split].
  - rewrite LevenshteinFacts.levenshtein_distance_edit.
    pose proof (LevenshteinMore.edit_lower (reverse s1) (reverse s2)) as Hl.
    by rewrite !length_reverse in Hl.
  - rewrite LevenshteinFacts.levenshtein_distance_sym,
      LevenshteinFacts.levenshtein_distance_edit.
    pose proof (LevenshteinMore.edit_lower (reverse s2) (reverse s1)) as Hl.
    by rewrite !length_reverse in Hl.
  - apply LevenshteinFacts.levenshtein_distance_bound.
Qed.

(** ** SimilarityCalculator: when a score is 0 or 1 *)

Module SimilarityMore.
Import TextNormalizer SimilarityCalculator LevenshteinFacts SimilarityFacts.

Lemma Qnat_eq n m : (Qnat n == Qnat m)%Q ↔ n = m.
Proof. unfold Qnat. rewrite inject_Z_injective. lia. Qed.

Lemma Qnat_ratio_one n m : 0 < m → (Qnat n / Qnat m == 1)%Q ↔ n = m.
Proof.
  intros Hm. pose proof (Qnat_pos m Hm) as Hpos. rewrite <- Qnat_eq. split.
  - intros Hone. transitivity (Qnat n / Qnat m * Qnat m)%Q.
    + field. lra.
    + rewrite Hone. apply Qmult_1_l.
  - intros Hnm. rewrite Hnm. apply Qmult_inv_r. lra.
Qed.

Lemma Qnat_ratio_zero n m : 0 < m → (Qnat n / Qnat m == 0)%Q ↔ n = 0.
Proof.
  intros Hm. pose proof (Qnat_pos m Hm) as Hpos.
  rewrite <- (Qnat_eq n 0). split.
  - intros Hzero. transitivity (Qnat n / Qnat m * Qnat m)%Q.
    + field. lra.
    + rewrite Hzero. apply Qmult_0_l.
  - intros Hn. rewrite Hn. unfold Qdiv. apply Qmult_0_l.
Qed.

Lemma same_size_same_set (A B : gset text) :
  size (A ∩ B) = size (A ∪ B) ↔ A = B.
Proof.
  split.
  - intros Hsize.
    assert (Heq : A ∩ B = A ∪ B).
    { apply set_subseteq_size_eq; [| lia].
      etrans; [apply intersection_subseteq_l | apply union_subseteq_l]. }
    apply leibniz_equiv. intros x. split; intros Hx.
    + assert (x ∈ A ∩ B) as ?%elem_of_intersection; [| tauto].
      rewrite Heq. apply elem_of_union. by left.
    + assert (x ∈ A ∩ B) as ?%elem_of_intersection; [| tauto].
      rewrite Heq. apply elem_of_union. by right.
  - intros ->. f_equal. apply leibniz_equiv. intros x.
    rewrite elem_of_intersection, elem_of_union. tauto.
Qed.

Lemma keywords_set_empty (l : list text) :
  list_to_set l =@{gset text} ∅ ↔ l = [].
Proof.
  split; [| by intros ->].
  destruct l as [| w l]; [done |]. intros He. exfalso.
  apply (not_elem_of_empty (C:=gset text) w).
  rewrite <- He. apply elem_of_list_to_set. by left.
Qed.

Section WithBuiltins.
Context `{PyBuiltins}.

Lemma jaccard_one a b :
  (jaccard_similarity a b == 1)%Q ↔
  extract_keywords a ≠ []
  ∧ list_to_set (extract_keywords a)
    =@{gset text} list_to_set (extract_keywords b).
Proof.
  unfold jaccard_similarity. cbv zeta. cbn [rnd exact_arithmetic].
  rewrite <- (keywords_set_empty (extract_keywords a)).
  set (A := list_to_set (extract_keywords a) : gset text).
  set (B := list_to_set (extract_keywords b) : gset text).
  case_decide as Hempty.
  - split; [by intros ? |]. intros [HA HAB]. destruct Hempty; congruence.
  - assert (HA : A ≠ ∅) by tauto.
    case_decide as Hu.
    + rewrite (Qnat_ratio_one _ _ Hu), same_size_same_set. tauto.
    + exfalso. apply Hu, Nat.neq_0_lt_0. intros Hz.
      apply size_empty_iff in Hz. apply HA, leibniz_equiv.
      intros x. split; [| by intros ?%not_elem_of_empty].
      intros Hx. apply Hz, elem_of_union. by left.
Qed.

Lemma jaccard_zero a b :
  (jaccard_similarity a b == 0)%Q ↔
  list_to_set (extract_keywords a) ∩ list_to_set (extract_keywords b)
  =@{gset text} ∅.
Proof.
  unfold jaccard_similarity. cbv zeta. cbn [rnd exact_arithmetic].
  set (A := list_to_set (extract_keywords a) : gset text).
  set (B := list_to_set (extract_keywords b) : gset text).
  case_decide as Hempty.
  - split; [| done]. intros _. apply leibniz_equiv. intros x.
    rewrite elem_of_intersection.
    split; [| by intros ?%not_elem_of_empty].
    intros [HxA HxB]. destruct Hempty as [He | He]; rewrite He in *;
      by apply not_elem_of_empty in HxA || apply not_elem_of_empty in HxB.
  - case_decide as Hu.
    + rewrite (Qnat_ratio_zero _ _ Hu). split.
      * intros Hz. apply leibniz_equiv. by apply size_empty_iff.
      * intros ->. apply size_empty.
    + split; [| done]. intros _. exfalso. apply Hu, Nat.neq_0_lt_0.
      intros Hz. apply size_empty_iff in Hz.
      assert (HA : A ≠ ∅) by tauto. apply HA, leibniz_equiv.
      intros x. split; [| by intros ?%not_elem_of_empty].
      intros Hx. apply Hz, elem_of_union. by left.
Qed.

Lemma normalized_levenshtein_one a b :
  (normalized_levenshtein a b == 1)%Q ↔
  normalize a ≠ [] ∧ normalize a = normalize b.
Proof.
  unfold normalized_levenshtein. cbv zeta. cbn [rnd exact_arithmetic].
  case_decide as Hempty.
  - split; [by intros ? |]. intros [Ha Hab]. destruct Hempty; congruence.
  - assert (Hlen : 0 < length (normalize a) `max` length (normalize b)).
    { destruct (normalize a); [tauto | simpl; lia]. }
    rewrite decide_True by done.
    assert (Hiff : ∀ q : Q, (1 - q == 1)%Q ↔ (q == 0)%Q)
      by (intros q; split; intros Hq; lra).
    rewrite Hiff, (Qnat_ratio_zero _ _ Hlen).
    rewrite levenshtein_distance_edit, LevenshteinMore.edit_zero.
    split.
    + intros Hrev. apply (f_equal reverse) in Hrev.
      rewrite !reverse_involutive in Hrev. tauto.
    + by intros [_ ->].
Qed.

End WithBuiltins.

Lemma scores_of_normal_forms `{PyBuiltins} `{Rounding} a a' b b' wj wl :
  normalize a = normalize a' → normalize b = normalize b' →
  weighted_similarity a b wj wl = weighted_similarity a' b' wj wl.
Proof.
  intros Ha Hb.
  unfold weighted_similarity, jaccard_similarity, normalized_levenshtein,
    extract_keywords. cbv zeta. by rewrite Ha, Hb.
Qed.

End SimilarityMore.

(** X6. The Jaccard score is 1 exactly when the two texts have the same
    keywords and at least one, and 0 exactly when they share no keyword. *)
Theorem jaccard_similarity_extremes `{PyBuiltins} (a b : value) :
  ((SimilarityCalculator.jaccard_similarity a b == 1)%Q ↔
     TextNormalizer.extract_keywords a ≠ []
     ∧ list_to_set (TextNormalizer.extract_keywords a)
       =@{gset text} list_to_set (TextNormalizer.extract_keywords b))
  ∧ ((SimilarityCalculator.jaccard_similarity a b == 0)%Q ↔
       list_to_set (TextNormalizer.extract_keywords a)
       ∩ list_to_set (TextNormalizer.extract_keywords b) =@{gset text} ∅).
Proof.
  split; [apply SimilarityMore.jaccard_one | apply SimilarityMore.jaccard_zero].
Qed.

(** X7. With the default weights the weighted score is 1 exactly when the
    two texts have the same normalised form and that form has a keyword. *)
Theorem weighted_similarity_perfect `{PyBuiltins} (a b : value) :
  (SimilarityCalculator.weighted_similarity a b
     SimilarityCalculator.default_jaccard_weight
     SimilarityCalculator.default_levenshtein_weight == 1)%Q ↔
  TextNormalizer.extract_keywords a ≠ []
  ∧ TextNormalizer.normalize a = TextNormalizer.normalize b.
Proof.
  unfold SimilarityCalculator.weighted_similarity,
    SimilarityCalculator.default_jaccard_weight,
    SimilarityCalculator.default_levenshtein_weight. cbv zeta.
  cbn [rnd exact_arithmetic].
  pose proof (SimilarityFacts.jaccard_similarity_range a b) as HJ.
  pose proof (SimilarityFacts.normalized_levenshtein_range a b) as HL.
  split.
  - intros Hone.
    assert (HJ1 : (SimilarityCalculator.jaccard_similarity a b == 1)%Q) by lra.
    assert (HL1 : (SimilarityCalculator.normalized_levenshtein a b == 1)%Q) by lra.
    apply SimilarityMore.jaccard_one in HJ1 as [Hk _].
    apply SimilarityMore.normalized_levenshtein_one in HL1 as [_ Hn]. done.
  - intros [Hk Hn].
    assert (HJ1 : (SimilarityCalculator.jaccard_similarity a b == 1)%Q).
    { apply SimilarityMore.jaccard_one. split; [done |].
      unfold TextNormalizer.extract_keywords. cbv zeta. by rewrite Hn. }
    assert (HL1 : (SimilarityCalculator.normalized_levenshtein a b == 1)%Q).
    { apply SimilarityMore.normalized_levenshtein_one. split; [| done].
      by apply SimilarityFacts.keywords_need_text. }
    rewrite HJ1, HL1. reflexivity.
Qed.

(** X8. The score of two texts is the score of their normalised forms: case,
    punctuation and spacing do not count (whenever lowercasing leaves
    lowercase ASCII letters, digits and spaces alone). *)
Theorem weighted_similarity_normalized `{PyBuiltins} `{Rounding}
    (a b : value) (wj wl : Q) :
  lower_keeps_clean →
  SimilarityCalculator.weighted_similarity a b wj wl
  = SimilarityCalculator.weighted_similarity
      (VStr (TextNormalizer.normalize a)) (VStr (TextNormalizer.normalize b))
      wj wl.
Proof.
  intros Hlower. apply SimilarityMore.scores_of_normal_forms;
    symmetry; by apply NormalizerMore.normalize_normalized.
Qed.

Lemma weighted_similarity_normalized_witness :
  @SimilarityCalculator.weighted_similarity ascii_builtins binary64
    (VStr (T "Chest X-Ray (PA)")) (VStr (T "chest, x ray; pa!"))
    (round64 (4 # 10)) (round64 (6 # 10))
  = @SimilarityCalculator.weighted_similarity ascii_builtins binary64
      (VStr (@TextNormalizer.normalize ascii_builtins
               (VStr (T "Chest X-Ray (PA)"))))
      (VStr (@TextNormalizer.normalize ascii_builtins
               (VStr (T "chest, x ray; pa!"))))
      (round64 (4 # 10)) (round64 (6 # 10)).
Proof.
  apply (@weighted_similarity_normalized ascii_builtins binary64).
  apply NormalizerMore.ascii_lower_keeps_clean.
Defined.

(** ** SimilarityCalculator: code similarity is symmetric, in range, and 1
    only for equal codes *)

Module CodeMore.
Import TextNormalizer SimilarityCalculator SimilarityFacts CodeFacts.

Lemma agreeing_sym (a b : text) : agreeing a b = agreeing b a.
Proof.
  unfold agreeing. revert b.
  induction a as [| x a IH]; intros [| y b]; try done.
  cbn [zip_with]. rewrite !filter_cons. cbn [fst snd].
  specialize (IH b).
  destruct (decide (x = y)), (decide (y = x)); cbn [length]; congruence.
Qed.

Lemma agreeing_le (a b : text) : agreeing a b ≤ length a `min` length b.
Proof.
  unfold agreeing. etrans; [apply length_filter |].
  by rewrite length_zip_with.
Qed.

Lemma agreeing_all (a b : text) :
  length a = length b → agreeing a b = length a → a = b.
Proof.
  unfold agreeing. revert b.
  induction a as [| x a IH]; intros [| y b]; try done.
  cbn [zip_with length]. rewrite filter_cons. cbn [fst snd].
  intros [= Hlen] Hall.
  pose proof (length_filter (λ p : N * N, p.1 = p.2) (zip a b)) as Hle.
  rewrite length_zip_with in Hle.
  destruct (decide (x = y)) as [-> |]; cbn [length] in Hall; [| lia].
  f_equal. apply IH; [done | lia].
Qed.

Lemma code_similarity_sym `{PyBuiltins} `{Rounding} code1 code2 :
  code_similarity code1 code2 = code_similarity code2 code1.
Proof.
  unfold code_similarity. rewrite (orb_comm (isna code1)).
  destruct (isna code2 || isna code1); [done |]. cbv zeta.
  set (c1 := strip (py_str code1)). set (c2 := strip (py_str code2)).
  destruct (decide (c1 = c2)) as [Heq | Hne].
  - by rewrite decide_True.
  - rewrite decide_False by congruence.
    rewrite (orb_comm (contains c2 c1)).
    destruct (contains c1 c2 || contains c2 c1); [done |].
    rewrite !matching_chars_agreeing, (agreeing_sym c1 c2).
    by rewrite (Nat.max_comm (length c1)).
Qed.

Section WithBuiltins.
Context `{PyBuiltins}.

Lemma code_similarity_cases code1 code2 :
  let c1 := strip (py_str code1) in
  let c2 := strip (py_str code2) in
  (isna code1 || isna code2 = true ∧ code_similarity code1 code2 = 0%Q)
  ∨ (isna code1 || isna code2 = false ∧ c1 = c2
     ∧ code_similarity code1 code2 = 1%Q)
  ∨ (isna code1 || isna code2 = false ∧ c1 ≠ c2
     ∧ code_similarity code1 code2 = (9 # 10)%Q)
  ∨ (isna code1 || isna code2 = false ∧ c1 ≠ c2
     ∧ 0 < length c1 `max` length c2
     ∧ code_similarity code1 code2
       = (Qnat (agreeing c1 c2) / Qnat (length c1 `max` length c2))%Q).
Proof.
  intros c1 c2. unfold code_similarity. cbn [rnd exact_arithmetic].
  destruct (isna code1 || isna code2); [by left |]. right. cbv zeta.
  fold c1 c2.
  destruct (decide (c1 = c2)) as [Heq | Hne]; [by left |]. right.
  destruct (contains c2 c1 || contains c1 c2) eqn:Hsub; [by left |]. right.
  apply orb_false_iff in Hsub as [Hsub _].
  rewrite matching_chars_agreeing. repeat split; try done.
  destruct c1 as [| x c1']; [| simpl; lia].
  by rewrite contains_nil in Hsub.
Qed.

End WithBuiltins.
End CodeMore.

(** X9. The code similarity is symmetric, lies between 0 and 1, and is 1
    exactly when both codes are present and equal after trimming. *)
Theorem code_similarity_properties `{PyBuiltins} (code1 code2 : value) :
  SimilarityCalculator.code_similarity code1 code2
  = SimilarityCalculator.code_similarity code2 code1
  ∧ (0 <= SimilarityCalculator.code_similarity code1 code2 <= 1)%Q
  ∧ ((SimilarityCalculator.code_similarity code1 code2 == 1)%Q ↔
       isna code1 = false ∧ isna code2 = false
       ∧ TextNormalizer.strip (TextNormalizer.py_str code1)
         = TextNormalizer.strip (TextNormalizer.py_str code2)).
Proof.
  split; [apply CodeMore.code_similarity_sym |].
  destruct (CodeMore.code_similarity_cases code1 code2)
    as [[Hna ->] | [(Hna & Heq & ->) | [(Hna & Hne & ->) | (Hna & Hne & Hlen & ->)]]].
  - split; [lra |]. split; [by intros ? |].
    intros (H1 & H2 & _). by rewrite H1, H2 in Hna.
  - apply orb_false_iff in Hna as [H1 H2].
    split; [lra |]. by split.
  - split; [lra |]. split; [by intros ? | tauto].
  - pose proof (CodeMore.agreeing_le
                  (TextNormalizer.strip (TextNormalizer.py_str code1))
                  (TextNormalizer.strip (TextNormalizer.py_str code2))) as Hle.
    split; [apply SimilarityFacts.Qnat_ratio; [done | lia] |].
    rewrite (SimilarityMore.Qnat_ratio_one _ _ Hlen).
    split; [| tauto]. intros Hall. exfalso. apply Hne.
    apply CodeMore.agreeing_all; lia.
Qed.

(** ** SBSMappingEngine: more on the search *)

Module SearchMore.
Import SBSMappingEngine SortFacts SearchFacts.

Section Sorting.
Context {A : Type} (key : A → Q).

Lemma insert_desc_head x l :
  (∀ y, head l = Some y → (key y <= key x)%Q) →
  insert_desc key x l = x :: l.
Proof.
  destruct l as [| y l]; [done |]. intros Hy. cbn [insert_desc].
  rewrite (proj2 (Qlt_bool_false _ _)); [done |]. by apply Hy.
Qed.

Lemma filter_insert_desc (P : A → Prop) `{!∀ a, Decision (P a)} x l :
  StronglySorted (desc key) l →
  filter P (insert_desc key x l)
  = if decide (P x) then insert_desc key x (filter P l) else filter P l.
Proof.
  induction 1 as [| y l Hl IH Hy]; cbn [insert_desc].
  - rewrite filter_cons, filter_nil. by case_decide.
  - destruct (Qlt_bool (key x) (key y)) eqn:Hxy.
    + rewrite !(filter_cons _ y), IH.
      destruct (decide (P x)), (decide (P y)); try done.
      cbn [insert_desc]. by rewrite Hxy.
    + apply Qlt_bool_false in Hxy. rewrite (filter_cons _ x).
      case_decide; [| done].
      rewrite insert_desc_head; [done |].
      intros z Hz. apply head_Some_elem_of, list_elem_of_filter in Hz as [_ Hz].
      apply elem_of_cons in Hz as [-> | Hz]; [done |].
      rewrite Forall_forall in Hy. apply (Qle_trans _ (key y)); [| done].
      by apply Hy.
Qed.

Lemma filter_sort_desc (P : A → Prop) `{!∀ a, Decision (P a)} l :
  filter P (sort_desc key l) = sort_desc key (filter P l).
Proof.
  induction l as [| x l IH]; [done |].
  rewrite sort_desc_cons, filter_insert_desc by apply sort_desc_sorted.
  rewrite filter_cons, IH. by case_decide.
Qed.

Lemma filter_none (P : A → Prop) `{!∀ a, Decision (P a)} l :
  Forall (λ a, ¬ P a) l → filter P l = [].
Proof.
  induction 1 as [| y l Hy _ IH]; [done |].
  by rewrite filter_cons, decide_False.
Qed.

(** In a descending list the elements whose key reaches a bound are a
    prefix. *)
Lemma filter_bound_prefix (bound : Q) l :
  StronglySorted (desc key) l →
  filter (λ a, (bound <= key a)%Q) l
  = take (length (filter (λ a, (bound <= key a)%Q) l)) l.
Proof.
  induction 1 as [| y l Hl IH Hy]; [done |].
  rewrite filter_cons. case_decide as Hb.
  - cbn [length take]. by rewrite <- IH.
  - rewrite filter_none; [done |].
    rewrite Forall_forall in Hy |- *. intros z Hz Hbz. apply Hb.
    apply (Qle_trans _ (key z)); [done |]. by apply Hy.
Qed.

End Sorting.

Section WithBuiltins.
Context `{PyBuiltins} `{Rounding}.
Variables (src : value) (dcol : string) (ccol : option string).

Lemma scan_rows_missing thr df :
  Exists (λ r : Z * gmap string value, r.2 !! dcol = None) df →
  scan_rows src df dcol ccol thr = Raise (KeyError dcol).
Proof.
  induction df as [| [idx row] df IH]; intros Hex; [by apply Exists_nil in Hex |].
  cbn [scan_rows]. unfold getitem at 1.
  destruct (row !! dcol) as [v |] eqn:Hv; [| done].
  apply Exists_cons in Hex as [Hex | Hex]; [by cbn in Hex; congruence |].
  cbn [mbind res_bind]. by rewrite (IH Hex).
Qed.

Lemma survives_mono thr thr' r :
  (rnd thr <= rnd thr')%Q → survives src dcol thr' r → survives src dcol thr r.
Proof. unfold survives. intros Hle Hs. by apply (Qle_trans _ (rnd thr')). Qed.

Lemma filter_survives_mono thr thr' (df : DataFrame) :
  (rnd thr <= rnd thr')%Q →
  filter (survives src dcol thr') df
  = filter (survives src dcol thr') (filter (survives src dcol thr) df).
Proof.
  intros Hle. induction df as [| r df IH]; [done |].
  rewrite !(filter_cons _ r).
  destruct (decide (survives src dcol thr' r)) as [Hs' | Hs'].
  - rewrite decide_True by by eapply survives_mono.
    rewrite filter_cons, decide_True by done. by rewrite IH.
  - case_decide; [| done]. by rewrite filter_cons, decide_False.
Qed.

Lemma sorted_survivors_prefix thr (l : DataFrame) :
  StronglySorted (desc (similarity src dcol)) l →
  filter (survives src dcol thr) l
  = take (length (filter (survives src dcol thr) l)) l.
Proof. apply (filter_bound_prefix (similarity src dcol) (rnd thr)). Qed.

End WithBuiltins.
End SearchMore.

(** X10. If a row of the target frame lacks the description column, the
    search raises [KeyError] for that column, whatever the other rows, the
    threshold and [top_n] are. *)
Theorem find_best_match_missing_column `{PyBuiltins} `{Rounding}
    (src : value) (df : DataFrame) (dcol : string) (ccol : option string) (top_n : Z)
    (thr : Q) :
  Exists (λ r : Z * gmap string value, r.2 !! dcol = None) df →
  SBSMappingEngine.find_best_match src df dcol ccol top_n thr
  = Raise (KeyError dcol).
Proof.
  intros Hex. unfold SBSMappingEngine.find_best_match.
  by rewrite (SearchMore.scan_rows_missing src dcol ccol thr df Hex).
Qed.

Lemma find_best_match_missing_column_witness :
  @SBSMappingEngine.find_best_match ascii_builtins binary64 (VStr (T "chest x ray"))
    sample_price_list "Description" (Some "pricelist_code") 5 (1 # 2)
  = Raise (KeyError "Description").
Proof.
  apply (@find_best_match_missing_column ascii_builtins binary64).
  apply Exists_cons_hd. by vm_compute.
Defined.

(** X11. A smaller [top_n] returns the first dicts of what a larger one
    returns, and no search returns more dicts than [top_n] or than the frame
    has rows. *)
Theorem find_best_match_top_n_prefix `{PyBuiltins} `{Rounding}
    (src : value) (df : DataFrame) (dcol : string) (ccol : option string) (n m : Z)
    (thr : Q) :
  searchable dcol df →
  (0 ≤ n ≤ m)%Z →
  ∃ l, SBSMappingEngine.find_best_match src df dcol ccol m thr = Ok l
       ∧ SBSMappingEngine.find_best_match src df dcol ccol n thr
         = Ok (take (Z.to_nat n) l)
       ∧ length l ≤ Z.to_nat m
       ∧ length l ≤ length df.
Proof.
  intros Hdf Hnm.
  rewrite !(SearchFacts.find_best_match_ok src dcol ccol thr df _ Hdf).
  unfold slice_to. rewrite !decide_True by lia.
  eexists. split; [done |]. split; [| split].
  - rewrite <- fmap_take, take_take. do 3 f_equal. lia.
  - rewrite length_fmap, length_take. lia.
  - rewrite length_fmap, length_take,
      (Permutation_length (SortFacts.sort_desc_perm _ _)).
    pose proof (length_filter (survives src dcol thr) df). lia.
Qed.

Lemma find_best_match_top_n_prefix_witness :
  ∃ l, @SBSMappingEngine.find_best_match ascii_builtins binary64
         (VStr (T "chest x ray")) sample_price_list "pricelist_description"
         (Some "pricelist_code") 5 0 = Ok l
       ∧ @SBSMappingEngine.find_best_match ascii_builtins binary64
           (VStr (T "chest x ray")) sample_price_list "pricelist_description"
           (Some "pricelist_code") 1 0 = Ok (take (Z.to_nat 1) l)
       ∧ length l ≤ Z.to_nat 5
       ∧ length l ≤ length sample_price_list.
Proof.
  apply (@find_best_match_top_n_prefix ascii_builtins binary64); [| lia].
  repeat (apply Forall_cons_2;
          [split; [eexists; vm_compute; reflexivity | by vm_compute] |]).
  apply Forall_nil_2.
Defined.

(** X12. Raising the threshold only cuts the ranking at its end: the dicts
    returned for the higher threshold are the first ones of those returned
    for the lower threshold, in the same order.  The two thresholds are
    compared as the floats they are read as. *)
Theorem find_best_match_threshold_prefix `{PyBuiltins} `{Rounding}
    (src : value) (df : DataFrame) (dcol : string) (ccol : option string) (top_n : Z)
    (thr thr' : Q) :
  searchable dcol df →
  (0 ≤ top_n)%Z →
  (rnd thr <= rnd thr')%Q →
  ∃ l k, SBSMappingEngine.find_best_match src df dcol ccol top_n thr = Ok l
         ∧ SBSMappingEngine.find_best_match src df dcol ccol top_n thr'
           = Ok (take k l).
Proof.
  intros Hdf Hn Hle.
  rewrite !(SearchFacts.find_best_match_ok src dcol ccol _ df _ Hdf).
  unfold slice_to. rewrite !decide_True by lia.
  rewrite (SearchMore.filter_survives_mono src dcol thr thr' df Hle).
  rewrite <- (SearchMore.filter_sort_desc (similarity src dcol)
                (survives src dcol thr')).
  rewrite (SearchMore.sorted_survivors_prefix src dcol thr')
    by apply SortFacts.sort_desc_sorted.
  eexists _, _. split; [done |].
  rewrite <- !fmap_take, !take_take. do 3 f_equal.
  rewrite (Nat.min_comm (Z.to_nat top_n)). reflexivity.
Qed.

Lemma find_best_match_threshold_prefix_witness :
  ∃ l k, @SBSMappingEngine.find_best_match ascii_builtins binary64
           (VStr (T "chest x ray")) sample_price_list "pricelist_description"
           (Some "pricelist_code") 5 0 = Ok l
         ∧ @SBSMappingEngine.find_best_match ascii_builtins binary64
             (VStr (T "chest x ray")) sample_price_list
             "pricelist_description" (Some "pricelist_code") 5 (1 # 2)
           = Ok (take k l).
Proof.
  apply (@find_best_match_threshold_prefix ascii_builtins binary64);
    [| lia | by vm_compute].
  repeat (apply Forall_cons_2;
          [split; [eexists; vm_compute; reflexivity | by vm_compute] |]).
  apply Forall_nil_2.
Defined.
